(** * Contig shredding (jcvi, assembly/ca.py): window planning and
      fragment emission

    A shallow embedding of [shred] and [emitFragment] from
    [src/assembly/ca.py] (Python 2), followed by the properties the
    specification states about them.

    - Python integers are unbounded: they are [Z].  [a / b] on integers is
      floor division ([Z.div] rounds the same way); dividing by zero raises.
    - Python floats are IEEE 754 binary64 numbers.  Every arithmetic
      operation returns the exact result rounded to nearest, ties to even;
      module [B64] writes this rounding out over the rationals, with the
      53-bit significand, gradual underflow below [2^-1022] and overflow
      at [2^1024].
      The rounding is compared with [SpecFloat], the Standard Library's
      implementation of these operations, on the inputs of the scenarios.
    - Exceptions are the [Raise] results of a small error monad.
    - The output stream [fw] is the list of the texts written to it. *)

From Stdlib Require Import ZArith QArith Qround Qabs Qpower Lia Lqa.
From Stdlib Require Import List Bool String Ascii DecimalString Sorted SpecFloat.
From Stdlib Require Import Permutation.
Import ListNotations.

Local Open Scope Z_scope.

(* ================================================================== *)
(** ** IEEE 754 binary64, round to nearest even *)
(* ================================================================== *)

Module B64.

Definition prec : Z := 53.
Definition emax : Z := 1024.
(** Exponent of the least positive (subnormal) number, [2^-1074]. *)
Definition etiny : Z := -1074.

(** [Qlog2 q] is the integer [l] with [2^l <= q < 2^(l+1)], for [0 < q]. *)
Definition Qlog2 (q : Q) : Z :=
  let k := Z.log2 (Qnum q) - Z.log2 (Zpos (Qden q)) in
  if Qle_bool (2 ^ k) q then k else k - 1.

(** Nearest integer, ties to the even one. *)
Definition rne (q : Q) : Z :=
  let f := Qfloor q in
  match Qcompare (q - inject_Z f) (1 # 2) with
  | Lt => f
  | Gt => f + 1
  | Eq => if Z.even f then f else f + 1
  end.

(** Exponent of the unit in the last place of the format around [q]. *)
Definition ulp_exp (q : Q) : Z := Z.max (Qlog2 q - (prec - 1)) etiny.

(** [q] in units in the last place. *)
Definition scale (q : Q) : Q := (q / 2 ^ ulp_exp q)%Q.

Definition round_pos (q : Q) : Q :=
  (inject_Z (rne (scale q)) * 2 ^ ulp_exp q)%Q.

(** The binary64 number nearest to [q], exponent range unbounded above. *)
Definition round (q : Q) : Q :=
  match Qnum q with
  | Z0 => 0%Q
  | Zpos _ => Qred (round_pos q)
  | Zneg _ => Qred (- round_pos (- q))
  end.

(** The unit roundoff, [2^-53]. *)
Definition u53 : Q := 1 # (2 ^ 53).

(** A rounded value is a finite float when it lies below [2^emax]. *)
Definition finite (q : Q) : bool := negb (Qle_bool (2 ^ emax) (Qabs q)).

End B64.

(* ================================================================== *)
(** ** Python values, exceptions and built-ins *)
(* ================================================================== *)

Inductive exn : Type :=
| ZeroDivisionError
| OverflowError
| ValueError
| KeyError
| IndexError
| FileExistsError.

Inductive result (A : Type) : Type :=
| Ok (a : A)
| Raise (e : exn).

Arguments Ok {A} a.
Arguments Raise {A} e.

Definition rbind {A B : Type} (m : result A) (k : A -> result B) : result B :=
  match m with
  | Ok a => k a
  | Raise e => Raise e
  end.

Notation "'let!' x ':=' m 'in' k" := (rbind m (fun x => k))
  (at level 10, x pattern, m at level 100, k at level 200).

(** [sys.maxint] of a 64-bit CPython 2. *)
Definition sys_maxint : Z := 2 ^ 63 - 1.

(** Integer [a / b]. *)
Definition int_div (a b : Z) : result Z :=
  if b =? 0 then Raise ZeroDivisionError else Ok (a / b).

(** A float operation: the exact result [q], rounded.  An infinite result
    is never used by [shred] except to be converted back with [int], which
    raises [OverflowError]; so does the conversion of a too large integer. *)
Definition fl (q : Q) : result Q :=
  let r := B64.round q in
  if B64.finite r then Ok r else Raise OverflowError.

(** [float(z)], the implicit conversion of an integer operand. *)
Definition float_of_int (z : Z) : result Q := fl (inject_Z z).

Definition float_mul (x y : Q) : result Q := fl (x * y)%Q.

Definition float_add (x y : Q) : result Q := fl (x + y)%Q.

Definition float_div (x y : Q) : result Q :=
  if Qeq_bool y 0 then Raise ZeroDivisionError else fl (x / y)%Q.

(** [int(x)]: truncation toward zero. *)
Definition int_of_float (x : Q) : Z := Z.quot (Qnum x) (Zpos (Qden x)).

(** [xrange(n)]: the indices [0 .. n-1]; [n] must fit a C long. *)
Definition xrange (n : Z) : result (list Z) :=
  if n >? sys_maxint then Raise OverflowError
  else Ok (map Z.of_nat (seq 0 (Z.to_nat n))).

(** A [for] loop over [idx] whose body updates the loop state. *)
Fixpoint for_each {S : Type} (body : Z -> S -> result S) (idx : list Z) (st : S)
  : result S :=
  match idx with
  | [] => Ok st
  | i :: rest => let! st' := body i st in for_each body rest st'
  end.

(** *** Strings *)

Local Open Scope string_scope.

Definition nl : string := String (ascii_of_nat 10) EmptyString.

(** A text given line by line, the lines joined by newlines. *)
Definition lines (ls : list string) : string := String.concat nl ls.

(** [str(z)] for an integer. *)
Definition str_of_int (z : Z) : string := NilZero.string_of_int (Z.to_int z).

(** [s * n] *)
Fixpoint str_mul (s : string) (n : nat) : string :=
  match n with
  | O => ""
  | S n' => s ++ str_mul s n'
  end.

(** [s[b:e]] *)
Definition py_slice (s : string) (b e : Z) : string :=
  let n := Z.of_nat (String.length s) in
  let clamp (x : Z) := if (x <? 0)%Z then Z.max (x + n) 0 else Z.min x n in
  substring (Z.to_nat (clamp b)) (Z.to_nat (clamp e - clamp b)) s.

(** [s.split(c)[0]]: the text before the first [c]. *)
Fixpoint split_head (c : ascii) (s : string) : string :=
  match s with
  | EmptyString => ""
  | String a s' => if Ascii.eqb a c then "" else String a (split_head c s')
  end.

Inductive pyval : Type :=
| PStr (s : string)
| PInt (z : Z).

Definition py_str (v : pyval) : string :=
  match v with
  | PStr s => s
  | PInt z => str_of_int z
  end.

Definition is_digit (a : ascii) : bool :=
  let n := nat_of_ascii a in (48 <=? n)%nat && (n <=? 57)%nat.

Fixpoint all_digits (s : string) : bool :=
  match s with
  | EmptyString => true
  | String a s' => is_digit a && all_digits s'
  end.

Fixpoint index_of_digits (s : string) (acc : nat) : nat :=
  match s with
  | EmptyString => acc
  | String a s' => index_of_digits s' (10 * acc + (nat_of_ascii a - 48))%nat
  end.

Fixpoint assoc (k : string) (kw : list (string * pyval)) : option pyval :=
  match kw with
  | [] => None
  | (k', v) :: kw' => if String.eqb k k' then Some v else assoc k kw'
  end.

(** The value a replacement field [{name}] stands for. *)
Definition field_value (name : string) (args : list pyval)
  (kwargs : list (string * pyval)) : result string :=
  match name with
  | EmptyString => Raise ValueError
  | _ =>
    if all_digits name then
      match nth_error args (index_of_digits name 0) with
      | Some v => Ok (py_str v)
      | None => Raise IndexError
      end
    else
      match assoc name kwargs with
      | Some v => Ok (py_str v)
      | None => Raise KeyError
      end
  end.

(** [template.format( *args, **kwargs)] for templates whose fields are plain
    names or indices: a doubled brace is a literal brace, [{name}] is replaced.
    [field] holds the name being read, reversed, while inside braces. *)
Fixpoint format_from (t : string) (field : option string)
  (args : list pyval) (kwargs : list (string * pyval)) : result string :=
  match t with
  | EmptyString =>
    match field with
    | None => Ok ""
    | Some _ => Raise ValueError
    end
  | String c t' =>
    match field with
    | Some name =>
      if Ascii.eqb c "}" then
        let! v := field_value (string_of_list_ascii (rev (list_ascii_of_string name)))
                    args kwargs in
        let! rest := format_from t' None args kwargs in
        Ok (v ++ rest)
      else format_from t' (Some (String c name)) args kwargs
    | None =>
      if Ascii.eqb c "{" then
        match t' with
        | String "{" t'' =>
          let! rest := format_from t'' None args kwargs in Ok (String "{" rest)
        | _ => format_from t' (Some "") args kwargs
        end
      else if Ascii.eqb c "}" then
        match t' with
        | String "}" t'' =>
          let! rest := format_from t'' None args kwargs in Ok (String "}" rest)
        | _ => Raise ValueError
        end
      else
        let! rest := format_from t' None args kwargs in Ok (String c rest)
    end
  end.

Definition format (t : string) (args : list pyval) (kwargs : list (string * pyval))
  : result string :=
  format_from t None args kwargs.

(* ================================================================== *)
(** ** The output stream and the file system *)
(* ================================================================== *)

(** The texts written to [fw] so far, oldest first. *)
Definition stream : Type := list string.

(** A statement that may write to the stream and may raise. *)
Definition IO (A : Type) : Type := stream -> result A * stream.

Definition io_ret {A : Type} (a : A) : IO A := fun fw => (Ok a, fw).

Definition io_bind {A B : Type} (m : IO A) (k : A -> IO B) : IO B :=
  fun fw =>
    match m fw with
    | (Ok a, fw') => k a fw'
    | (Raise e, fw') => (Raise e, fw')
    end.

Definition io_lift {A : Type} (r : result A) : IO A := fun fw => (r, fw).

Definition fw_write (txt : string) : IO unit := fun fw => (Ok tt, (fw ++ [txt])%list).

(** [print >> fw, txt] *)
Definition print_to (txt : string) : IO unit := fw_write (txt ++ nl).

Notation "'do!' x ':=' m 'in' k" := (io_bind m (fun x => k))
  (at level 10, x pattern, m at level 100, k at level 200).

(** Files by path, with their contents. *)
Definition filesystem : Type := list (string * string).

Fixpoint fs_exists (fs : filesystem) (path : string) : bool :=
  match fs with
  | [] => false
  | (p, _) :: fs' => String.eqb p path || fs_exists fs' path
  end.

Fixpoint fs_remove (fs : filesystem) (path : string) : filesystem :=
  match fs with
  | [] => []
  | (p, c) :: fs' =>
    if String.eqb p path then fs_remove fs' path else (p, c) :: fs_remove fs' path
  end.

(** What the file [path] holds once the stream [fw] opened on it is closed. *)
Definition fs_store (fs : filesystem) (path : string) (fw : stream) : filesystem :=
  (path, String.concat "" fw) :: fs_remove fs path.

(** Modelled from the spec: [must_open] of [jcvi.formats.base], which is not
    among the sources.  With [checkexists] set, opening for writing a path
    that already exists aborts the run before anything is written (the
    failure-on-existing request of the error conditions); otherwise the
    file is opened empty. *)
Definition must_open (fs : filesystem) (path : string) (checkexists : bool)
  : result stream :=
  if checkexists && fs_exists fs path then Raise FileExistsError else Ok [].

(* ================================================================== *)
(** ** assembly/ca.py *)
(* ================================================================== *)

Definition frgTemplate : string :=
  lines [ "{{FRG"; "act:A"; "acc:{fragID}"; "rnd:1"; "sta:G"; "lib:{libID}";
          "pla:0"; "loc:0"; "src:"; "."; "seq:"; "{seq}"; "."; "qlt:"; "{qvs}";
          "."; "hps:"; "."; "clr:0,{slen}"; "}}" ].

Definition headerTemplate : string :=
  lines [ "{{VER"; "ver:2"; "}}"; "{{LIB"; "act:A"; "acc:{libID}"; "ori:U";
          "mea:0.0"; "std:0.0"; "src:"; "."; "nft:4"; "fea:";
          "doTrim_initialQualityBased=0"; "doTrim_finalEvidenceBased=0";
          "doRemoveSpurReads=0"; "doRemoveChimericReads=0"; "."; "}}" ].

(** [chr(ord('0') + 13)] *)
Definition DEFAULTQV : string :=
  String (ascii_of_nat (nat_of_ascii "0" + 13)) EmptyString.

(** The options of [shred]. *)
Record options : Type := Options {
  opt_depth : Z;
  opt_readlen : Z;
  opt_minctglen : Z;
  opt_fasta : bool
}.

Definition default_options : options :=
  {| opt_depth := 2; opt_readlen := 1000; opt_minctglen := 150; opt_fasta := false |}.

Definition window : Type := (Z * Z)%type.

Local Close Scope string_scope.

(** *** The window planner: lines 244-263 of [shred] *)

Definition shredlen_of (seqlen readlen : Z) : Z := Z.min (seqlen - 50) readlen.

Definition numreads_of (seqlen readlen depth : Z) : result Z :=
  let! q := int_div (seqlen * depth) (shredlen_of seqlen readlen) in
  Ok (Z.max q 1).

(** [center_range_width * 1. / (numreads - 1)] *)
Definition center_increments_of (center_range_width numreads : Z) : result Q :=
  let! w := float_of_int center_range_width in
  let! w1 := float_mul w 1 in
  let! n1 := float_of_int (numreads - 1) in
  float_div w1 n1.

(** One pass of the loop over [i]; the state is [(prev_begin, ranges)]. *)
Definition shred_step (center_increments : Q) (shredlen : Z) (i : Z)
  (st : Z * list window) : result (Z * list window) :=
  let '(prev_begin, ranges) := st in
  let! fi := float_of_int i in
  let! begin_f := float_mul center_increments fi in
  let! fs := float_of_int shredlen in
  let! end_f := float_add begin_f fs in
  let begin_ := int_of_float begin_f in
  let end_ := int_of_float end_f in
  if begin_ =? prev_begin then Ok (prev_begin, ranges)
  else Ok (begin_, ranges ++ [(begin_, end_)]).

Definition plan_windows (seqlen readlen depth : Z) : result (list window) :=
  let shredlen := shredlen_of seqlen readlen in
  let! numreads := numreads_of seqlen readlen depth in
  let center_range_width := seqlen - shredlen in
  if numreads =? 1 then Ok [(0, shredlen)]
  else
    let prev_begin := -1 in
    let! center_increments := center_increments_of center_range_width numreads in
    let! idx := xrange numreads in
    let! st := for_each (shred_step center_increments shredlen) idx (prev_begin, []) in
    Ok (snd st).

(** The ranges of one contig: the length test of line 241, then the planner. *)
Definition contig_ranges (opts : options) (seqlen : Z) : result (list window) :=
  if seqlen <? opt_minctglen opts then Ok []
  else plan_windows seqlen (opt_readlen opts) (opt_depth opts).

(** *** Emission *)

Section Emission.

(** [SeqIO.write([SeqRecord(seq, id=fragID, description="")], fw, "fasta")] of
    Biopython: the text of one FASTA record, from its identifier and residues. *)
Variable SeqIO_write_fasta : string -> string -> string.

Local Open Scope string_scope.

Definition emitFragment (fragID libID shredded_seq : string) (fasta : bool) : IO unit :=
  if fasta then fw_write (SeqIO_write_fasta fragID shredded_seq)
  else
    let seq := shredded_seq in
    let slen := String.length seq in
    let qvs := str_mul DEFAULTQV slen in
    do! txt := io_lift (format frgTemplate []
                 [("fragID", PStr fragID); ("libID", PStr libID); ("seq", PStr seq);
                  ("qvs", PStr qvs); ("slen", PInt (Z.of_nat slen))]) in
    print_to txt.

(** The loop of lines 265-268 over [enumerate(ranges)], from [shredID] on. *)
Fixpoint emit_ranges (opts : options) (libID : string) (ctgID : Z) (seq : string)
  (shredID : Z) (ranges : list window) : IO unit :=
  match ranges with
  | [] => io_ret tt
  | (begin_, end_) :: rest =>
    let shredded_seq := py_slice seq begin_ end_ in
    do! fragID := io_lift (format "{0}.{1}.frag{2}.{3}-{4}"
                    [PStr libID; PInt ctgID; PInt shredID; PInt begin_; PInt end_] []) in
    do! _ := emitFragment fragID libID shredded_seq (opt_fasta opts) in
    emit_ranges opts libID ctgID seq (shredID + 1) rest
  end.

(** The body of the loop over the contigs, lines 239-268. *)
Definition shred_contig (opts : options) (libID : string) (ctgID : Z)
  (rec : string * string) : IO unit :=
  let seq := snd rec in
  let seqlen := Z.of_nat (String.length seq) in
  if (seqlen <? opt_minctglen opts)%Z then io_ret tt
  else
    do! ranges := io_lift (plan_windows seqlen (opt_readlen opts) (opt_depth opts)) in
    emit_ranges opts libID ctgID seq 0 ranges.

(** [for ctgID, (name, rec) in enumerate(f.iteritems_ordered())], from
    [ctgID] on; [f] lists the records of the FASTA file in stored order. *)
Fixpoint shred_contigs (opts : options) (libID : string) (ctgID : Z)
  (f : list (string * string)) : IO unit :=
  match f with
  | [] => io_ret tt
  | rec :: rest =>
    do! _ := shred_contig opts libID ctgID rec in
    shred_contigs opts libID (ctgID + 1) rest
  end.

(** Lines 223-268: what [shred] writes to the opened stream. *)
Definition shred_stream (opts : options) (libID : string) (f : list (string * string))
  : IO unit :=
  do! _ := (if negb (opt_fasta opts)
            then do! hdr := io_lift (format headerTemplate [] [("libID", PStr libID)]) in
                 print_to hdr
            else io_ret tt) in
  shred_contigs opts libID 0 f.

Definition outfile_of (opts : options) (libID : string) : result string :=
  let! suffix := format ".depth{0}" [PInt (opt_depth opts)] [] in
  Ok (libID ++ suffix ++ (if opt_fasta opts then ".fasta" else ".frg")).

(** [shred]: the records [f] of [fastafile] are shredded into the output
    file.  Returns how the run ended and the file system it leaves. *)
Definition shred (opts : options) (fs : filesystem) (fastafile : string)
  (f : list (string * string)) : result unit * filesystem :=
  let libID := split_head "." fastafile in
  match outfile_of opts libID with
  | Raise e => (Raise e, fs)
  | Ok outfile =>
    match must_open fs outfile true with
    | Raise e => (Raise e, fs)
    | Ok fw =>
      let '(r, fw') := shred_stream opts libID f fw in
      (r, fs_store fs outfile fw')
    end
  end.

End Emission.

(* ================================================================== *)
(** ** Vocabulary of the specification *)
(* ================================================================== *)

(** A window [[begin, end)] lies inside a sequence of [seqlen] residues. *)
Definition window_in (seqlen : Z) (w : window) : Prop :=
  0 <= fst w /\ fst w < snd w /\ snd w <= seqlen.

(** A window holds [shredlen] residues, or one more. *)
Definition window_len (shredlen : Z) (w : window) : Prop :=
  shredlen <= snd w - fst w <= shredlen + 1.

Definition window_ok (seqlen shredlen : Z) (w : window) : Prop :=
  window_in seqlen w /\ window_len shredlen w.

(** The float [begin] of pass [i], and the float [end]. *)
Definition begin_at (center_increments : Q) (i : Z) : Q :=
  B64.round (center_increments * B64.round (inject_Z i)).

Definition end_at (center_increments : Q) (shredlen i : Z) : Q :=
  B64.round (begin_at center_increments i + B64.round (inject_Z shredlen)).

(** What one pass of the loop does to its state when it raises nothing. *)
Definition step_result (center_increments : Q) (shredlen i : Z)
  (st : Z * list window) : Z * list window :=
  let b := int_of_float (begin_at center_increments i) in
  if b =? fst st then st
  else (b, snd st ++ [(b, int_of_float (end_at center_increments shredlen i))]).

(** The invariant of the planner's loop before pass [i]: the begins emitted
    so far increase strictly, none exceeds [prev_begin], and [prev_begin]
    does not exceed the begin of pass [i]. *)
Definition increasing_upto (center_increments : Q) (i : Z)
  (st : Z * list window) : Prop :=
  StronglySorted Z.lt (map fst (snd st)) /\
  Forall (fun b => b <= fst st) (map fst (snd st)) /\
  fst st <= int_of_float (begin_at center_increments i).

(** Two invariants of the planner's loop: the windows emitted so far lie
    inside the sequence, and none was emitted only before the first pass;
    after a pass at least one was emitted. *)
Definition inside (seqlen shredlen : Z) (st : Z * list window) : Prop :=
  Forall (window_ok seqlen shredlen) (snd st) /\ (snd st = [] -> fst st = -1).

Definition nonempty_inside (seqlen shredlen : Z) (st : Z * list window) : Prop :=
  inside seqlen shredlen st /\ snd st <> [].

(** Sequences are held in memory: their length stays below the size of the
    address space of the machine. *)
Definition max_seqlen : Z := 2 ^ 48.

Local Open Scope string_scope.

(** A fragment record, from the contents of its fields. *)
Definition frg_record (acc lib seq qlt clr : string) : string :=
  lines [ "{FRG"; "act:A"; "acc:" ++ acc; "rnd:1"; "sta:G"; "lib:" ++ lib;
          "pla:0"; "loc:0"; "src:"; "."; "seq:"; seq; "."; "qlt:"; qlt;
          "."; "hps:"; "."; "clr:" ++ clr; "}" ] ++ nl.

(** The library header record. *)
Definition lib_record (acc : string) : string :=
  lines [ "{VER"; "ver:2"; "}"; "{LIB"; "act:A"; "acc:" ++ acc; "ori:U";
          "mea:0.0"; "std:0.0"; "src:"; "."; "nft:4"; "fea:";
          "doTrim_initialQualityBased=0"; "doTrim_finalEvidenceBased=0";
          "doRemoveSpurReads=0"; "doRemoveChimericReads=0"; "."; "}" ] ++ nl.

Definition is_frg_record (txt : string) : Prop :=
  exists acc lib seq qlt clr, txt = frg_record acc lib seq qlt clr.

Definition is_lib_record (txt : string) : Prop :=
  exists acc, txt = lib_record acc.

(** The name of the output file. *)
Definition output_path (opts : options) (libID : string) : string :=
  libID ++ ".depth" ++ str_of_int (opt_depth opts) ++
  (if opt_fasta opts then ".fasta" else ".frg").

Local Close Scope string_scope.

(** A statement that, whatever it returns or raises, only appends fragment
    records to the stream. *)
Definition appends_fragments {A : Type} (m : IO A) : Prop :=
  forall fw, exists frags, snd (m fw) = fw ++ frags /\ Forall is_frg_record frags.

(** *** The reference implementation of binary64

    [SpecFloat] of the Standard Library implements the IEEE 754 operations on
    significands and exponents.  The passes of the planner are written a
    second time with it, to compare [B64.round] against it on given inputs. *)

Definition sf_to_Q (x : spec_float) : option Q :=
  match x with
  | S754_zero _ => Some 0%Q
  | S754_finite s m e => Some (inject_Z (if s then Z.neg m else Z.pos m) * 2 ^ e)%Q
  | _ => None
  end.

Definition sf_of_int (z : Z) : spec_float := binary_normalize 53 1024 z 0 false.

Definition sf_pow2 (e : Z) : spec_float := binary_normalize 53 1024 1 e false.

Definition sf_increments (W N : Z) : spec_float :=
  SFdiv 53 1024 (SFmul 53 1024 (sf_of_int W) (sf_of_int 1)) (sf_of_int (N - 1)).

Definition sf_begin (W N i : Z) : spec_float :=
  SFmul 53 1024 (sf_increments W N) (sf_of_int i).

Definition sf_end (W N L i : Z) : spec_float :=
  SFadd 53 1024 (sf_begin W N i) (sf_of_int L).

Definition same_value (x : spec_float) (q : Q) : bool :=
  match sf_to_Q x with
  | Some r => Qeq_bool r q
  | None => false
  end.

(** The floats of every pass of the planner agree with the reference. *)
Definition agree_on (seqlen readlen depth : Z) : bool :=
  let L := shredlen_of seqlen readlen in
  let W := seqlen - L in
  match numreads_of seqlen readlen depth with
  | Ok N =>
    match center_increments_of W N with
    | Ok ci =>
      same_value (sf_increments W N) ci &&
      forallb (fun i => same_value (sf_begin W N i) (begin_at ci i) &&
                        same_value (sf_end W N L i) (end_at ci L i))
              (map Z.of_nat (seq 0 (Z.to_nat N)))
    | Raise _ => false
    end
  | Raise _ => false
  end.

(* ================================================================== *)
(** ** More vocabulary for [shred] *)
(* ================================================================== *)

Local Open Scope string_scope.

(** The identifier of the fragment of window [shredID] of contig [ctgID]. *)
Definition fragment_id (libID : string) (ctgID shredID begin_ end_ : Z) : string :=
  libID ++ "." ++ str_of_int ctgID ++ ".frag" ++ str_of_int shredID ++ "." ++
  str_of_int begin_ ++ "-" ++ str_of_int end_.

(** The text written for one window: a fragment record in structured mode,
    the FASTA record of the writer in plain mode. *)
Definition fragment_text (SeqIO_write_fasta : string -> string -> string)
  (fasta : bool) (libID : string) (ctgID : Z) (seq : string) (shredID : Z)
  (w : window) : string :=
  let id := fragment_id libID ctgID shredID (fst w) (snd w) in
  let residues := py_slice seq (fst w) (snd w) in
  if fasta then SeqIO_write_fasta id residues
  else frg_record id libID residues
         (str_mul DEFAULTQV (String.length residues))
         ("0," ++ str_of_int (Z.of_nat (String.length residues))).

(** The texts written for the windows of one contig, numbered from [shredID]. *)
Fixpoint fragment_texts (SeqIO_write_fasta : string -> string -> string)
  (fasta : bool) (libID : string) (ctgID : Z) (seq : string) (shredID : Z)
  (ranges : list window) : list string :=
  match ranges with
  | [] => []
  | w :: rest =>
    fragment_text SeqIO_write_fasta fasta libID ctgID seq shredID w ::
    fragment_texts SeqIO_write_fasta fasta libID ctgID seq (shredID + 1) rest
  end.

Local Close Scope string_scope.

(* ================================================================== *)
(** ** The other commands of assembly/ca.py and variation/impute.py *)
(* ================================================================== *)

(** Exceptions of these commands: the ones above, a failed [assert], and a
    name that is not bound. *)
Inductive pyexn : Type :=
| Builtin (e : exn)
| AssertionError
| NameError (name : string).

Inductive outcome (A : Type) : Type :=
| Return (a : A)
| Throw (e : pyexn).

Arguments Return {A} a.
Arguments Throw {A} e.

Definition of_result {A : Type} (r : result A) : outcome A :=
  match r with
  | Ok a => Return a
  | Raise e => Throw (Builtin e)
  end.

(** A statement that may print and may raise: the stream is what was
    printed so far. *)
Definition Cmd (A : Type) : Type := stream -> outcome A * stream.

Definition cmd_ret {A : Type} (a : A) : Cmd A := fun out => (Return a, out).

Definition cmd_throw {A : Type} (e : pyexn) : Cmd A := fun out => (Throw e, out).

Definition cmd_bind {A B : Type} (m : Cmd A) (k : A -> Cmd B) : Cmd B :=
  fun out =>
    match m out with
    | (Return a, out') => k a out'
    | (Throw e, out') => (Throw e, out')
    end.

Definition cmd_lift {A : Type} (r : result A) : Cmd A := fun out => (of_result r, out).

(** [print txt] *)
Definition cmd_print (txt : string) : Cmd unit :=
  fun out => (Return tt, out ++ [(txt ++ nl)%string]).

Notation "'run!' x ':=' m 'in' k" := (cmd_bind m (fun x => k))
  (at level 10, x pattern, m at level 100, k at level 200).

(** A [for] loop over [items] whose body updates the loop state. *)
Fixpoint cmd_for {X S : Type} (body : X -> S -> Cmd S) (items : list X) (st : S)
  : Cmd S :=
  match items with
  | [] => cmd_ret st
  | x :: rest => run! st' := body x st in cmd_for body rest st'
  end.

(** *** More string methods *)

Local Open Scope string_scope.

Definition tab : string := String (ascii_of_nat 9) EmptyString.

(** The characters [str.split()] splits on. *)
Definition is_space (a : ascii) : bool :=
  let n := nat_of_ascii a in (n =? 32)%nat || ((9 <=? n)%nat && (n <=? 13)%nat).

Definition cons_nonempty (w : string) (ws : list string) : list string :=
  match w with
  | EmptyString => ws
  | _ => w :: ws
  end.

(** The first word of [s] up to the first space, and the words after it. *)
Fixpoint words_from (s : string) : string * list string :=
  match s with
  | EmptyString => ("", [])
  | String a s' =>
    let '(w, ws) := words_from s' in
    if is_space a then ("", cons_nonempty w ws) else (String a w, ws)
  end.

(** [s.split()] *)
Definition py_split (s : string) : list string :=
  let '(w, ws) := words_from s in cons_nonempty w ws.

(** The piece of [s] before the first [c], and the pieces after it. *)
Fixpoint pieces_from (c : ascii) (s : string) : string * list string :=
  match s with
  | EmptyString => ("", [])
  | String a s' =>
    let '(w, ws) := pieces_from c s' in
    if Ascii.eqb a c then ("", w :: ws) else (String a w, ws)
  end.

(** [s.split(c)] *)
Definition py_split_on (c : ascii) (s : string) : list string :=
  let '(w, ws) := pieces_from c s in w :: ws.

(** [c in s] *)
Fixpoint has_char (c : ascii) (s : string) : bool :=
  match s with
  | EmptyString => false
  | String a s' => Ascii.eqb a c || has_char c s'
  end.

(** [s.rsplit(c, 1)[0]]: the text before the last [c], or all of [s]. *)
Fixpoint rsplit_head (c : ascii) (s : string) : string :=
  match s with
  | EmptyString => ""
  | String a s' =>
    if has_char c s' then String a (rsplit_head c s')
    else if Ascii.eqb a c then "" else String a s'
  end.

(** [x in xs] for strings. *)
Fixpoint mem_str (x : string) (xs : list string) : bool :=
  match xs with
  | [] => false
  | y :: ys => String.eqb x y || mem_str x ys
  end.

(** [sorted(xs)] for strings, which compare byte by byte. *)
Fixpoint insert_sorted (x : string) (xs : list string) : list string :=
  match xs with
  | [] => [x]
  | y :: ys => if String.leb x y then x :: y :: ys else y :: insert_sorted x ys
  end.

Fixpoint py_sorted (xs : list string) : list string :=
  match xs with
  | [] => []
  | x :: rest => insert_sorted x (py_sorted rest)
  end.

(** [os.path.join(a, b)] *)
Definition path_join (a b : string) : string :=
  match b with
  | String "/" _ => b
  | _ =>
    match a with
    | EmptyString => b
    | _ =>
      if String.eqb (substring (String.length a - 1) 1 a) "/" then a ++ b
      else a ++ "/" ++ b
    end
  end.

(** *** Dictionaries *)

Section Dict.

Variables K V : Type.
Variable keq : K -> K -> bool.

Definition dict : Type := list (K * V).

(** [d[k]], or [None] where Python raises [KeyError]. *)
Fixpoint dict_get (k : K) (d : dict) : option V :=
  match d with
  | [] => None
  | (k', v) :: d' => if keq k k' then Some v else dict_get k d'
  end.

(** [del d[k]] *)
Fixpoint dict_del (k : K) (d : dict) : dict :=
  match d with
  | [] => []
  | (k', v) :: d' => if keq k k' then dict_del k d' else (k', v) :: dict_del k d'
  end.

(** [d[k] = v] *)
Definition dict_set (k : K) (v : V) (d : dict) : dict := (k, v) :: dict_del k d.

(** [d.update(items)] *)
Definition dict_update (items : list (K * V)) (d : dict) : dict :=
  fold_left (fun acc kv => dict_set (fst kv) (snd kv) acc) items d.

End Dict.

Arguments dict_get {K V} keq k d.
Arguments dict_del {K V} keq k d.
Arguments dict_set {K V} keq k v d.
Arguments dict_update {K V} keq items d.

(** [sorted(d.items())] for string keys: the keys of a dictionary are
    distinct, so the items come in the order of their keys. *)
Fixpoint insert_item {V : Type} (kv : string * V) (xs : list (string * V))
  : list (string * V) :=
  match xs with
  | [] => [kv]
  | y :: ys =>
    if String.leb (fst kv) (fst y) then kv :: y :: ys else y :: insert_item kv ys
  end.

Fixpoint sorted_items {V : Type} (d : list (string * V)) : list (string * V) :=
  match d with
  | [] => []
  | kv :: rest => insert_item kv (sorted_items rest)
  end.

(** A file read back from the file system. *)
Fixpoint fs_read (fs : filesystem) (path : string) : option string :=
  match fs with
  | [] => None
  | (p, c) :: fs' => if String.eqb p path then Some c else fs_read fs' path
  end.

Local Close Scope string_scope.

(** *** assembly/ca.py: [script] *)

Definition not_found : list string := ["limited"%string; "exhausted"%string].

(** The counters of [script]. *)
Record tally : Type := Tally {
  pe : Z;
  mp : Z;
  both : Z;
  noidea : Z;
  total : Z
}.

Section Script.

(** [int(x)] for a string [x]. *)
Variable py_int : string -> result Z.

(** [[int(x) for x in xs]] *)
Fixpoint ints_of (xs : list string) : result (list Z) :=
  match xs with
  | [] => Ok []
  | x :: rest =>
    let! i := py_int x in
    let! others := ints_of rest in
    Ok (i :: others)
  end.

Local Open Scope string_scope.

(** The body of the loop over the rows, lines 301-316. *)
Definition script_row (row : string) (t : tally) : Cmd tally :=
  match py_split row with
  | [frgiid; bfs; rfs] =>
    let bfs := negb (mem_str bfs not_found) in
    let rfs := negb (mem_str rfs not_found) in
    let pe := if bfs && negb rfs then pe t + 1 else pe t in
    run! mp :=
      (if rfs && negb bfs then
         let mp := mp t + 1 in
         run! frgiid := cmd_lift (py_int frgiid) in
         let mateiid := frgiid + 1 in
         run! l1 := cmd_lift (format "frg iid {0} mateiid {1}"
                                [PInt frgiid; PInt mateiid] []) in
         run! _ := cmd_print l1 in
         run! l2 := cmd_lift (format "frg iid {0} mateiid {1}"
                                [PInt mateiid; PInt frgiid] []) in
         run! _ := cmd_print l2 in
         cmd_ret mp
       else cmd_ret (mp t)) in
    let both := if bfs && rfs then both t + 1 else both t in
    let noidea := if negb bfs && negb rfs then noidea t + 1 else noidea t in
    cmd_ret (Tally pe mp both noidea (total t + 1))
  | _ => cmd_throw (Builtin ValueError)
  end.

(** [script], lines 288-322: [libs] is the second argument and [rows] the
    lines of the file [fsfile].  Returns the four counts put in [counts];
    the table printed from them is the work of [tabulate]. *)
Definition script (libs : string) (rows : list string) : Cmd tally :=
  run! libs := cmd_lift (ints_of (py_split_on "," libs)) in
  run! _ := cmd_for (fun i _ =>
              run! l := cmd_lift (format "lib iid {0} allfragsunmated 1" [PInt i] []) in
              cmd_print l) libs tt in
  run! t := cmd_for script_row rows (Tally 0 0 0 0 0) in
  if negb (pe t + mp t + both t + noidea t =? total t)%Z then cmd_throw AssertionError
  else cmd_ret t.

End Script.

(** *** assembly/ca.py: [make_matepairs] *)

Section Mates.

(** The identifiers of the records [SeqIO.parse(fastafile, "fasta")] of
    Biopython yields, from the text of the file. *)
Variable SeqIO_parse_ids : string -> list string.

Local Open Scope string_scope.

(** [zip(it, it)]: the items of one iterator, two by two. *)
Fixpoint zip_self {A : Type} (it : list A) : list (A * A) :=
  match it with
  | fwd :: rev :: rest => (fwd, rev) :: zip_self rest
  | _ => []
  end.

Fixpoint write_mates (pairs : list (string * string)) : IO unit :=
  match pairs with
  | [] => io_ret tt
  | (fwd, rev) :: rest =>
    do! l := io_lift (format ("{0}" ++ tab ++ "{1}") [PStr fwd; PStr rev] []) in
    do! _ := print_to l in
    write_mates rest
  end.

Definition make_matepairs (fs : filesystem) (fastafile : string)
  : outcome string * filesystem :=
  if negb (fs_exists fs fastafile) then (Throw AssertionError, fs)
  else
    let matefile := rsplit_head "." fastafile ++ ".mates" in
    if fs_exists fs matefile then (Return matefile, fs)
    else
      let it := SeqIO_parse_ids (match fs_read fs fastafile with
                                 | Some text => text
                                 | None => ""
                                 end) in
      match write_mates (zip_self it) [] with
      | (Ok _, matefw) => (Return matefile, fs_store fs matefile matefw)
      | (Raise e, matefw) => (Throw (Builtin e), fs_store fs matefile matefw)
      end.

End Mates.

(** *** assembly/ca.py: [clr] *)

Section Clr.

(** [range_minmax] of [jcvi.utils.range], which is not among the sources:
    the least start and the greatest stop of a list of ranges. *)
Variable range_minmax : list (Z * Z) -> Z * Z.

(** The line printed for a sequence and its clear range. *)
Definition clr_line (query : string) (clr_start clr_end : Z) : string :=
  String.concat tab [query; str_of_int clr_start; str_of_int clr_end].

(** The clear range of lines 600-606. *)
Definition clear_range (qsize vmin vmax : Z) : Z * Z :=
  let left_size := vmin - 1 in
  let right_size := qsize - vmax in
  if left_size >? right_size then (0, vmin) else (vmax, qsize).

(** The body of the loop over the hits, lines 596-609; a hit is the pair
    [(qstart, qstop)] of a BLAST line. *)
Definition clr_hit (qh : string * list (Z * Z)) (sizes : dict string Z)
  : Cmd (dict string Z) :=
  let '(query, hits) := qh in
  match dict_get String.eqb query sizes with
  | None => cmd_throw (Builtin KeyError)
  | Some qsize =>
    let vectors := map (fun x => (fst x, snd x)) hits in
    let '(vmin, vmax) := range_minmax vectors in
    let '(clr_start, clr_end) := clear_range qsize vmin vmax in
    run! _ := cmd_print (clr_line query clr_start clr_end) in
    cmd_ret (dict_del String.eqb query sizes)
  end.

(** Lines 586-589: the sizes of the sequences of all files, by name. *)
Definition clr_sizes (fastas : list (list (string * Z))) : dict string Z :=
  fold_left (fun sizes items => dict_update String.eqb items sizes) fastas [].

(** [clr], lines 584-612: [fastas] holds what [itersizes] yields for each
    FASTA file, [hits] what [iter_hits] yields for the BLAST file. *)
Definition clr (fastas : list (list (string * Z)))
  (hits : list (string * list (Z * Z))) : Cmd unit :=
  let sizes := clr_sizes fastas in
  run! sizes := cmd_for clr_hit hits sizes in
  cmd_for (fun kv _ => cmd_print (clr_line (fst kv) 0 (snd kv)))
    (sorted_items sizes) tt.

(** The line printed for a query with hits. *)
Definition hit_line (sizes : dict string Z) (qh : string * list (Z * Z)) : string :=
  match dict_get String.eqb (fst qh) sizes with
  | Some qsize =>
    let '(vmin, vmax) := range_minmax (snd qh) in
    let '(s, e) := clear_range qsize vmin vmax in
    (clr_line (fst qh) s e ++ nl)%string
  | None => EmptyString
  end.

End Clr.

(** *** variation/impute.py: [validate] *)

Section Validate.

Local Open Scope string_scope.

Definition key_eqb (a b : string * string) : bool :=
  String.eqb (fst a) (fst b) && String.eqb (snd a) (snd b).

(** A row of a VCF file: [None] for a comment line, else the position
    [(chr, pos)] and the genotype column of its ten columns. *)
Definition vcf_row (row : string) : outcome (option ((string * string) * string)) :=
  match row with
  | EmptyString => Throw (Builtin IndexError)
  | String c _ =>
    if Ascii.eqb c "#" then Return None
    else
      match py_split row with
      | [chr; pos; rsid; ref; alt; qual; filter; info; format; genotype] =>
        Return (Some ((chr, pos), genotype))
      | _ => Throw (Builtin ValueError)
      end
  end.

(** The first loop, lines 45-49. *)
Fixpoint read_register (rows : list string) (register : dict (string * string) string)
  : outcome (dict (string * string) string) :=
  match rows with
  | [] => Return register
  | row :: rest =>
    match vcf_row row with
    | Throw e => Throw e
    | Return None => read_register rest register
    | Return (Some (key, genotype)) =>
      read_register rest (dict_set key_eqb key genotype register)
    end
  end.

(** Lines 63-65: the genotype before the first colon, a phased one with
    its alleles sorted and joined by a slash. *)
Definition imputed_genotype (genotype : string) : string :=
  let imputed := split_head ":" genotype in
  if has_char "|" imputed
  then String.concat "/" (py_sorted (py_split_on "|" imputed))
  else imputed.

(** The second loop, lines 56-68; the state is [(hit, concordant)]. *)
Fixpoint count_concordant (rows : list string) (register : dict (string * string) string)
  (st : Z * Z) : outcome (Z * Z) :=
  match rows with
  | [] => Return st
  | row :: rest =>
    match vcf_row row with
    | Throw e => Throw e
    | Return None => count_concordant rest register st
    | Return (Some (key, genotype)) =>
      match dict_get key_eqb key register with
      | None => count_concordant rest register st
      | Some truth =>
        let imputed := imputed_genotype genotype in
        let hit := fst st + 1 in
        let concordant := if String.eqb truth imputed then snd st + 1 else snd st in
        count_concordant rest register (hit, concordant)
      end
    end
  end.

(** [validate]: the rows of the two files give [(hit, concordant)], the
    numbers that are logged. *)
Definition validate (imputed withheld : list string) : outcome (Z * Z) :=
  match read_register withheld [] with
  | Throw e => Throw e
  | Return register => count_concordant imputed register (0, 0)
  end.

End Validate.

(** *** variation/impute.py: [get_phasing_cmd] and [impute] *)

Section Impute.

Local Open Scope string_scope.

Definition get_phasing_cmd (shapeit_cmd vcffile chr : string) (cpus : pyval)
  : result string :=
  let! rpf := format "1000GP_Phase3/1000GP_Phase3_chr{0}" [PStr chr] [] in
  let pf := rsplit_head "." vcffile in
  let! mapfile := format "1000GP_Phase3/genetic_map_chr{0}_combined_b37.txt" [PStr chr] [] in
  let! c1 := format " --input-vcf {0}" [PStr vcffile] [] in
  let cmd := shapeit_cmd ++ c1 in
  let! c2 := format " --input-map {0}" [PStr mapfile] [] in
  let cmd := cmd ++ c2 in
  let! c3 := format " --thread {0} --effective-size 20000" [cpus] [] in
  let cmd := cmd ++ c3 in
  let! c4 := format " --output-max {0}.haps {0}.sample" [PStr pf] [] in
  let cmd := cmd ++ c4 in
  let! c5 := format " --input-ref {0}.hap.gz {0}.legend.gz" [PStr rpf] [] in
  let cmd := cmd ++ c5 in
  let! c6 := format " {0}.sample" [PStr (rsplit_head "_" rpf)] [] in
  let cmd := cmd ++ c6 in
  let! c7 := format " --output-log {0}.log" [PStr pf] [] in
  let cmd := cmd ++ c7 in
  Ok cmd.

(** A rule registered with [mm.add]: sources, target, command. *)
Definition rule : Type := (list string * string * string)%type.

(** ["{0:02d}".format(x)] for [0 <= x]. *)
Definition fmt_02d (x : Z) : string :=
  if (x <? 10)%Z then "0" ++ str_of_int x else str_of_int x.

(** The names bound at the top level of impute.py: its imports (lines
    8-15), its functions (lines 18-161), and the names every module has. *)
Definition module_names : list string :=
  ["op"; "logging"; "sys"; "percentage"; "MakeManager"; "must_open";
   "OptionParser"; "ActionDispatcher"; "main"; "validate"; "minimac";
   "beagle"; "get_phasing_cmd"; "impute";
   "__name__"; "__doc__"; "__file__"; "__package__"; "__builtins__"].

(** The names of the module [__builtin__] of the interpreter, and [str] of
    the object a global name is bound to. *)
Variable builtin_names : list string.
Variable global_str : string -> string.

(** Reading a name that the function does not assign: the globals of the
    module, then the builtins, else [NameError]. *)
Definition load_global (name : string) : outcome pyval :=
  if mem_str name module_names || mem_str name builtin_names
  then Return (PStr (global_str name))
  else Throw (NameError name).

Definition obind {A B : Type} (m : outcome A) (k : A -> outcome B) : outcome B :=
  match m with
  | Return a => k a
  | Throw e => Throw e
  end.

(** Lines 195-203 of the loop over the chunks: the file of the chunk and
    the command that makes it.  [impute] assigns neither [mapfile] nor
    [rpf], so lines 198 and 200 read them as globals. *)
Definition impute_chunk (pf impute_cmd hapsfile : string) (size binsize x : Z)
  : outcome (string * string) :=
  let chunk_start := x * binsize + 1 in
  let chunk_end := Z.min (chunk_start + binsize - 1) size in
  let outfile := pf ++ ".chunk" ++ fmt_02d x ++ ".impute2" in
  obind (load_global "mapfile") (fun mapfile =>
  obind (of_result (format " -m {0}" [mapfile] [])) (fun c1 =>
  let cmd := impute_cmd ++ c1 in
  obind (of_result (format " -known_haps_g {0}" [PStr hapsfile] [])) (fun c2 =>
  let cmd := cmd ++ c2 in
  obind (load_global "rpf") (fun rpf =>
  obind (of_result (format " -h {0}.hap.gz -l {0}.legend.gz" [rpf] [])) (fun c3 =>
  let cmd := cmd ++ c3 in
  obind (of_result (format " -Ne 20000 -int {0} {1}"
                      [PInt chunk_start; PInt chunk_end] [])) (fun c4 =>
  let cmd := cmd ++ c4 in
  obind (of_result (format " -o {0} -allow_large_regions -seed 367946"
                      [PStr outfile] [])) (fun c5 =>
  let cmd := cmd ++ c5 in
  obind (of_result (format " && touch {0}" [PStr outfile] [])) (fun c6 =>
  let cmd := cmd ++ c6 in
  Return (outfile, cmd))))))))).

(** The loop of lines 194-205.  [mm] holds the rules registered so far
    and [chunks] the files of the chunks; line 204 registers the rule of
    the chunk and line 205 appends its file. *)
Fixpoint impute_chunks (pf impute_cmd hapsfile : string) (size binsize : Z)
  (idx : list Z) (chunks : list string) (mm : list rule)
  : outcome (list string) * list rule :=
  match idx with
  | [] => (Return chunks, mm)
  | x :: rest =>
    match impute_chunk pf impute_cmd hapsfile size binsize x with
    | Throw e => (Throw e, mm)
    | Return (outfile, cmd) =>
      impute_chunks pf impute_cmd hapsfile size binsize rest
        (chunks ++ [outfile])%list (mm ++ [([hapsfile], outfile, cmd)])%list
    end
  end.

(** [impute]: [size] is [len(fasta[chr])].  The result is paired with the
    rules registered with [mm.add] when the command ends; it is [Return]
    when [mm.write()] is reached. *)
Definition impute (shapeit_home impute_home : string) (cpus : pyval)
  (vcffile fastafile chr : string) (size : Z) : outcome unit * list rule :=
  let pf := rsplit_head "." vcffile in
  let hapsfile := pf ++ ".haps" in
  let shapeit_cmd := path_join shapeit_home "shapeit" in
  match get_phasing_cmd shapeit_cmd vcffile chr cpus with
  | Raise e => (Throw (Builtin e), [])
  | Ok cmd =>
    let mm := [([vcffile], hapsfile, cmd)] in
    let binsize := 5000000 in
    let bins := size / binsize in
    let bins := if negb (size mod binsize =? 0)%Z then bins + 1 else bins in
    let impute_cmd := path_join impute_home "impute2" in
    match xrange (bins + 1) with
    | Raise e => (Throw (Builtin e), mm)
    | Ok idx =>
      match impute_chunks pf impute_cmd hapsfile size binsize idx [] mm with
      | (Throw e, mm) => (Throw e, mm)
      | (Return chunks, mm) =>
        let imputefile := pf ++ ".impute2" in
        match format "cat {0} > {1}" [PStr (String.concat " " chunks); PStr imputefile] [] with
        | Raise e => (Throw (Builtin e), mm)
        | Ok cmd =>
          let mm := (mm ++ [(chunks, imputefile, cmd)])%list in
          let vcffile' := pf ++ ".impute2.vcf" in
          match format "python -m jcvi.formats.vcf fromimpute2 {0} {1} {2} > {3}"
                  [PStr imputefile; PStr fastafile; PStr chr; PStr vcffile'] [] with
          | Raise e => (Throw (Builtin e), mm)
          | Ok cmd => (Return tt, (mm ++ [([imputefile], vcffile', cmd)])%list)
          end
        end
      end
    end
  end.

End Impute.

(** *** Instances of the collaborators, to run the commands on examples *)

(** [int] on plain decimal literals. *)
Definition int_of_decimal (s : string) : result Z :=
  match NilZero.int_of_string s with
  | Some d => Ok (Z.of_int d)
  | None => Raise ValueError
  end.

(** A FASTA writer that does not wrap lines. *)
Definition write_fasta_unwrapped (id seq : string) : string :=
  (">" ++ id ++ nl ++ seq ++ nl)%string.

(** A reader of record identifiers from a text that lists them. *)
Definition ids_of_words (text : string) : list string := py_split text.




(** *** Vocabulary for the statements about these commands *)

Section Lines.

Local Open Scope string_scope.

(** The lines [script] prints. *)
Definition lib_line (i : Z) : string :=
  "lib iid " ++ str_of_int i ++ " allfragsunmated 1" ++ nl.

Definition mate_line (frgiid mateiid : Z) : string :=
  "frg iid " ++ str_of_int frgiid ++ " mateiid " ++ str_of_int mateiid ++ nl.

Definition mate_lines (frgiid : Z) : list string :=
  [mate_line frgiid (frgiid + 1); mate_line (frgiid + 1) frgiid].

Definition tally_sum (t : tally) : Z := (pe t + mp t + both t + noidea t)%Z.

(** The fragment, as the row writes it, of a row that RFS found and BFS
    did not. *)
Definition rfs_only (row : string) : option string :=
  match py_split row with
  | [frgiid; bfs; rfs] =>
    if mem_str bfs not_found && negb (mem_str rfs not_found) then Some frgiid else None
  | _ => None
  end.

(** These fragments, in the order of the rows. *)
Fixpoint rfs_only_frags (rows : list string) : list string :=
  match rows with
  | [] => []
  | row :: rest =>
    match rfs_only row with
    | Some frgiid => frgiid :: rfs_only_frags rest
    | None => rfs_only_frags rest
    end
  end.

(** The line [make_matepairs] writes for a pair of records. *)
Definition mates_line_of (p : string * string) : string :=
  fst p ++ tab ++ snd p ++ nl.

(** The command [get_phasing_cmd] builds, with the prefix of the sample
    file of the reference panel as [sample_pf]. *)
Definition phasing_cmd_text (shapeit_cmd vcffile chr : string) (cpus : pyval)
  (sample_pf : string) : string :=
  let pf := rsplit_head "." vcffile in
  let rpf := "1000GP_Phase3/1000GP_Phase3_chr" ++ chr in
  shapeit_cmd ++ " --input-vcf " ++ vcffile ++
  " --input-map 1000GP_Phase3/genetic_map_chr" ++ chr ++ "_combined_b37.txt" ++
  " --thread " ++ py_str cpus ++ " --effective-size 20000" ++
  " --output-max " ++ pf ++ ".haps " ++ pf ++ ".sample" ++
  " --input-ref " ++ rpf ++ ".hap.gz " ++ rpf ++ ".legend.gz" ++
  " " ++ sample_pf ++ ".sample" ++
  " --output-log " ++ pf ++ ".log".

End Lines.

(* ================================================================== *)
(** * Properties *)
(* ================================================================== *)

(** ** Rounding to binary64 *)

Section Rounding.

Import B64.
Local Open Scope Q_scope.

Lemma two_pow_pos (e : Z) : 0 < 2 ^ e.
Proof. apply Qpower_0_lt. reflexivity. Qed.

Lemma two_pow_add (a b : Z) : 2 ^ (a + b) == 2 ^ a * 2 ^ b.
Proof. apply Qpower_plus. discriminate. Qed.

Lemma two_pow_split (a b c : Z) : (a = b + c)%Z -> 2 ^ a == 2 ^ b * 2 ^ c.
Proof. intros ->. apply two_pow_add. Qed.

Lemma two_pow_lt_inv (a b : Z) : 2 ^ a < 2 ^ b -> (a < b)%Z.
Proof. intros H. apply (Qpower_lt_compat_l_inv 2); [exact H | reflexivity]. Qed.

Lemma two_pow_le (a b : Z) : (a <= b)%Z -> 2 ^ a <= 2 ^ b.
Proof. intros H. apply Qpower_le_compat_l; [exact H | discriminate]. Qed.

Lemma two_pow_Z (n : Z) : (0 <= n)%Z -> inject_Z (2 ^ n) == 2 ^ n.
Proof. intros H. apply (Zpower_Qpower 2 n H). Qed.

Lemma Qlog2_spec (q : Q) : 0 < q -> 2 ^ Qlog2 q <= q /\ q < 2 ^ (Qlog2 q + 1).
Proof.
  intros Hq. destruct q as [n d].
  assert (Hn : (0 < n)%Z) by (unfold Qlt in Hq; simpl in Hq; lia).
  unfold Qlog2; simpl Qnum; simpl Qden.
  set (a := Z.log2 n). set (b := Z.log2 (Z.pos d)).
  destruct (Z.log2_spec n Hn) as [Ha1 Ha2]. fold a in Ha1, Ha2.
  destruct (Z.log2_spec (Z.pos d) eq_refl) as [Hb1 Hb2]. fold b in Hb1, Hb2.
  assert (Ha0 : (0 <= a)%Z) by apply Z.log2_nonneg.
  assert (Hb0 : (0 <= b)%Z) by apply Z.log2_nonneg.
  assert (HN : inject_Z n == (n # d) * inject_Z (Z.pos d)).
  { rewrite (Qmake_Qdiv n d). field. discriminate. }
  rewrite Zle_Qle, two_pow_Z in Ha1, Hb1 by assumption.
  rewrite Zlt_Qlt, two_pow_Z in Ha2, Hb2 by lia.
  set (D := inject_Z (Z.pos d)) in *. set (x := n # d) in *.
  rewrite HN in Ha1, Ha2. clear HN.
  assert (HD : 0 < D) by reflexivity.
  pose proof (two_pow_pos b) as Pb.
  destruct (Qle_bool (2 ^ (a - b)) x) eqn:E.
  - apply Qle_bool_iff in E. split; [exact E|].
    apply Qnot_le_lt. intros C.
    assert (2 ^ (a + 1) <= x * D).
    { rewrite (two_pow_split (a + 1) (a - b + 1) b) by lia.
      apply Qmult_le_compat_nonneg; split;
        [apply Qlt_le_weak, two_pow_pos | exact C | apply Qlt_le_weak, Pb | exact Hb1]. }
    exact (Qlt_irrefl _ (Qlt_le_trans _ _ _ Ha2 H)).
  - assert (E' : x < 2 ^ (a - b)).
    { apply Qnot_le_lt. intros C. apply Qle_bool_iff in C. congruence. }
    split.
    + apply Qnot_lt_le. intros C.
      assert (x * D < 2 ^ a).
      { rewrite (two_pow_split a (a - b - 1) (b + 1)) by lia.
        apply Qmult_lt_compat_nonneg; split;
          [apply Qlt_le_weak, Hq | exact C | apply Qlt_le_weak, HD | exact Hb2]. }
      exact (Qlt_irrefl _ (Qlt_le_trans _ _ _ H Ha1)).
    + replace (a - b - 1 + 1)%Z with (a - b)%Z by lia. exact E'.
Qed.

Lemma Qlog2_lt (q : Q) (k : Z) : 0 < q -> q < 2 ^ k -> (Qlog2 q < k)%Z.
Proof.
  intros Hq Hk. destruct (Qlog2_spec q Hq) as [H1 _].
  apply two_pow_lt_inv. exact (Qle_lt_trans _ _ _ H1 Hk).
Qed.

Lemma Qlog2_ge (q : Q) (k : Z) : 0 < q -> 2 ^ k <= q -> (k <= Qlog2 q)%Z.
Proof.
  intros Hq Hk. destruct (Qlog2_spec q Hq) as [_ H2].
  assert (k < Qlog2 q + 1)%Z; [|lia].
  apply two_pow_lt_inv. exact (Qle_lt_trans _ _ _ Hk H2).
Qed.

Lemma Qlog2_mono (x y : Q) : 0 < x -> x <= y -> (Qlog2 x <= Qlog2 y)%Z.
Proof.
  intros Hx Hxy. apply Qlog2_ge; [exact (Qlt_le_trans _ _ _ Hx Hxy)|].
  destruct (Qlog2_spec x Hx) as [H1 _]. exact (Qle_trans _ _ _ H1 Hxy).
Qed.

Lemma rne_floor_le (q : Q) : (Qfloor q <= rne q)%Z.
Proof.
  unfold rne. destruct (Qcompare _ _); [destruct (Z.even _)| |]; lia.
Qed.

Lemma rne_le_floor_succ (q : Q) : (rne q <= Qfloor q + 1)%Z.
Proof.
  unfold rne. destruct (Qcompare _ _); [destruct (Z.even _)| |]; lia.
Qed.

Lemma rne_Z (z : Z) : rne (inject_Z z) = z.
Proof.
  unfold rne. rewrite Qfloor_Z.
  destruct (Qcompare_spec (inject_Z z - inject_Z z) (1 # 2)) as [H|H|H].
  - exfalso. assert (E : inject_Z z - inject_Z z == 0) by ring.
    rewrite E in H. discriminate H.
  - reflexivity.
  - exfalso. assert (E : inject_Z z - inject_Z z == 0) by ring.
    rewrite E in H. discriminate H.
Qed.

Lemma rne_upper (q : Q) : inject_Z (rne q) <= q + (1 # 2).
Proof.
  unfold rne. pose proof (Qfloor_le q) as Hf.
  destruct (Qcompare_spec (q - inject_Z (Qfloor q)) (1 # 2)) as [H|H|H].
  - destruct (Z.even _); [lra|]. rewrite inject_Z_plus. change (inject_Z 1) with 1. lra.
  - lra.
  - rewrite inject_Z_plus. change (inject_Z 1) with 1. lra.
Qed.

Lemma rne_mono (x y : Q) : x <= y -> (rne x <= rne y)%Z.
Proof.
  intros Hxy. pose proof (Qfloor_resp_le x y Hxy) as Hf.
  destruct (Z.eq_dec (Qfloor x) (Qfloor y)) as [E|NE].
  - unfold rne. rewrite <- E.
    destruct (Qcompare_spec (x - inject_Z (Qfloor x)) (1 # 2)) as [H|H|H];
    destruct (Qcompare_spec (y - inject_Z (Qfloor x)) (1 # 2)) as [K|K|K];
    try (destruct (Z.even _)); try lia; exfalso; lra.
  - pose proof (rne_le_floor_succ x). pose proof (rne_floor_le y). lia.
Qed.

Lemma round_pos_eq (x : Q) :
  round_pos x = inject_Z (rne (scale x)) * 2 ^ ulp_exp x.
Proof. reflexivity. Qed.

Lemma ulp_exp_mono (x y : Q) : 0 < x -> x <= y -> (ulp_exp x <= ulp_exp y)%Z.
Proof.
  intros Hx Hxy. pose proof (Qlog2_mono x y Hx Hxy). unfold ulp_exp. lia.
Qed.

Lemma scale_upper (x : Q) : 0 < x -> scale x < 2 ^ 53.
Proof.
  intros Hx. destruct (Qlog2_spec x Hx) as [_ H2]. unfold scale.
  pose proof (two_pow_pos (ulp_exp x)) as He.
  apply Qlt_shift_div_r; [exact He|].
  rewrite <- two_pow_add. apply (Qlt_le_trans _ _ _ H2).
  apply two_pow_le. unfold ulp_exp, prec. lia.
Qed.

Lemma scale_lower (x : Q) :
  0 < x -> (etiny <= Qlog2 x - (prec - 1))%Z -> 2 ^ 52 <= scale x.
Proof.
  intros Hx Hn. destruct (Qlog2_spec x Hx) as [H1 _]. unfold scale.
  pose proof (two_pow_pos (ulp_exp x)) as He.
  apply Qle_shift_div_l; [exact He|].
  rewrite <- two_pow_add. apply Qle_trans with (2 ^ Qlog2 x); [|exact H1].
  apply two_pow_le. unfold ulp_exp, prec in *. lia.
Qed.

Lemma rne_scale_upper (x : Q) : 0 < x -> (rne (scale x) <= 2 ^ 53)%Z.
Proof.
  intros Hx. rewrite <- (rne_Z (2 ^ 53)). apply rne_mono.
  apply Qlt_le_weak, scale_upper, Hx.
Qed.

Lemma rne_scale_lower (x : Q) :
  0 < x -> (etiny <= Qlog2 x - (prec - 1))%Z -> (2 ^ 52 <= rne (scale x))%Z.
Proof.
  intros Hx Hn. rewrite <- (rne_Z (2 ^ 52)). apply rne_mono.
  apply scale_lower; assumption.
Qed.

Lemma round_pos_nonneg (x : Q) : 0 < x -> 0 <= round_pos x.
Proof.
  intros Hx. rewrite round_pos_eq.
  apply Qmult_le_0_compat; [|apply Qlt_le_weak, two_pow_pos].
  change 0 with (inject_Z 0). rewrite <- Zle_Qle.
  rewrite <- (rne_Z 0). apply rne_mono. unfold scale.
  apply Qle_shift_div_l; [apply two_pow_pos|].
  change (inject_Z 0) with 0. rewrite Qmult_0_l. apply Qlt_le_weak, Hx.
Qed.

Lemma round_pos_mono (x y : Q) : 0 < x -> x <= y -> round_pos x <= round_pos y.
Proof.
  intros Hx Hxy. assert (Hy : 0 < y) by exact (Qlt_le_trans _ _ _ Hx Hxy).
  pose proof (ulp_exp_mono x y Hx Hxy) as Hl.
  rewrite !round_pos_eq.
  destruct (Z.eq_dec (ulp_exp x) (ulp_exp y)) as [E|NE].
  - unfold scale. rewrite E. set (e := ulp_exp y).
    pose proof (two_pow_pos e) as He.
    apply Qmult_le_compat_r; [|apply Qlt_le_weak, He].
    rewrite <- Zle_Qle. apply rne_mono.
    apply Qle_shift_div_l; [exact He|].
    assert (Hs : x / 2 ^ e * 2 ^ e == x) by (field; lra).
    rewrite Hs. exact Hxy.
  - pose proof (rne_scale_upper x Hx) as Ux.
    assert (Ly : (2 ^ 52 <= rne (scale y))%Z).
    { apply rne_scale_lower; [exact Hy|]. unfold ulp_exp in *. lia. }
    set (ex := ulp_exp x) in *. set (ey := ulp_exp y) in *.
    apply Qle_trans with (2 ^ 53 * 2 ^ ex).
    + apply Qmult_le_compat_r; [|apply Qlt_le_weak, two_pow_pos].
      change (2 ^ 53) with (inject_Z (2 ^ 53)). rewrite <- Zle_Qle. exact Ux.
    + apply Qle_trans with (2 ^ 52 * 2 ^ ey).
      * rewrite <- !two_pow_add. apply two_pow_le. lia.
      * apply Qmult_le_compat_r; [|apply Qlt_le_weak, two_pow_pos].
        change (2 ^ 52) with (inject_Z (2 ^ 52)). rewrite <- Zle_Qle. exact Ly.
Qed.

Lemma rne_comp (x y : Q) : x == y -> rne x = rne y.
Proof.
  intros E. apply Z.le_antisymm; apply rne_mono; rewrite E; apply Qle_refl.
Qed.

Lemma round_pos_repr (m k : Z) :
  (0 < m < 2 ^ 53)%Z -> (etiny <= k)%Z ->
  round_pos (inject_Z m * 2 ^ k) == inject_Z m * 2 ^ k.
Proof.
  intros [Hm0 Hm] Hk. set (x := inject_Z m * 2 ^ k).
  assert (Hx : 0 < x).
  { apply Qmult_lt_0_compat; [|apply two_pow_pos].
    change 0 with (inject_Z 0). rewrite <- Zlt_Qlt. exact Hm0. }
  assert (Hl : (Qlog2 x < 53 + k)%Z).
  { apply Qlog2_lt; [exact Hx|]. rewrite two_pow_add. unfold x.
    apply Qmult_lt_compat_r; [apply two_pow_pos|].
    change (2 ^ 53) with (inject_Z (2 ^ 53)). rewrite <- Zlt_Qlt. exact Hm. }
  rewrite round_pos_eq.
  assert (He : (ulp_exp x <= k)%Z) by (unfold ulp_exp, prec; lia).
  set (e := ulp_exp x) in *.
  assert (Hs : scale x == inject_Z (m * 2 ^ (k - e))).
  { unfold scale. fold e. rewrite inject_Z_mult, two_pow_Z by lia.
    unfold x. rewrite (two_pow_split k (k - e) e) by lia.
    field. pose proof (two_pow_pos e). lra. }
  rewrite (rne_comp _ _ Hs), rne_Z, inject_Z_mult, two_pow_Z by lia.
  unfold x. rewrite (two_pow_split k (k - e) e) by lia. ring.
Qed.

Lemma round_pos_rel (x : Q) : 2 ^ (-1022) <= x -> round_pos x <= x * (1 + u53).
Proof.
  intros Hn. assert (Hx : 0 < x) by exact (Qlt_le_trans _ _ _ (two_pow_pos _) Hn).
  rewrite round_pos_eq.
  assert (H1 : 2 ^ 52 <= scale x).
  { apply scale_lower; [exact Hx|].
    pose proof (Qlog2_ge x (-1022) Hx Hn). unfold etiny, prec. lia. }
  pose proof (rne_upper (scale x)) as Hu.
  set (e := ulp_exp x) in *.
  pose proof (two_pow_pos e) as He.
  assert (Hs : x == scale x * 2 ^ e) by (unfold scale; fold e; field; lra).
  rewrite Hs at 2. set (s := scale x) in *. set (r := inject_Z (rne s)) in *.
  assert (Hr : r <= s * (1 + u53)).
  { assert (Hh : (1 # 2) <= s * u53).
    { apply Qle_trans with (2 ^ 52 * u53); [unfold u53; discriminate|].
      apply Qmult_le_compat_r; [exact H1 | discriminate]. }
    lra. }
  rewrite <- Qmult_assoc, (Qmult_comm (2 ^ e)), Qmult_assoc.
  apply Qmult_le_compat_r; [exact Hr | apply Qlt_le_weak, He].
Qed.

Lemma Qnum_pos_iff (q : Q) : 0 < q <-> (0 < Qnum q)%Z.
Proof. unfold Qlt. simpl. rewrite Z.mul_1_r. reflexivity. Qed.

Lemma round_of_pos (x : Q) : 0 < x -> round x == round_pos x.
Proof.
  intros Hx. apply Qnum_pos_iff in Hx. unfold round.
  destruct (Qnum x); try lia. apply Qred_correct.
Qed.

Lemma round_of_zero (x : Q) : x == 0 -> round x = 0.
Proof.
  intros Hx. unfold Qeq in Hx. simpl in Hx. rewrite Z.mul_1_r in Hx.
  unfold round. rewrite Hx. reflexivity.
Qed.

Lemma Qle_zero_cases (x : Q) : 0 <= x -> x == 0 \/ 0 < x.
Proof.
  intros H. destruct (Qlt_le_dec 0 x) as [L|L]; [right; exact L|left; lra].
Qed.

Lemma round_nonneg (x : Q) : 0 <= x -> 0 <= round x.
Proof.
  intros Hx. destruct (Qle_zero_cases x Hx) as [Z|P].
  - rewrite (round_of_zero x Z). apply Qle_refl.
  - rewrite (round_of_pos x P). apply round_pos_nonneg, P.
Qed.

Lemma round_mono (x y : Q) : 0 <= x -> x <= y -> round x <= round y.
Proof.
  intros Hx Hxy. destruct (Qle_zero_cases x Hx) as [Z|P].
  - rewrite (round_of_zero x Z). apply round_nonneg. lra.
  - assert (Py : 0 < y) by lra.
    rewrite (round_of_pos x P), (round_of_pos y Py). apply round_pos_mono; assumption.
Qed.

Lemma round_comp (x y : Q) : 0 <= x -> x == y -> round x == round y.
Proof.
  intros Hx E. apply Qle_antisym; apply round_mono; lra.
Qed.

Lemma round_repr (m k : Z) :
  (0 <= m < 2 ^ 53)%Z -> (etiny <= k)%Z ->
  round (inject_Z m * 2 ^ k) == inject_Z m * 2 ^ k.
Proof.
  intros [Hm0 Hm] Hk. destruct (Z.eq_dec m 0) as [->|NZ].
  - assert (E : inject_Z 0 * 2 ^ k == 0) by ring.
    rewrite (round_of_zero _ E), E. reflexivity.
  - rewrite round_of_pos.
    + apply round_pos_repr; [lia | exact Hk].
    + apply Qmult_lt_0_compat; [|apply two_pow_pos].
      change 0 with (inject_Z 0). rewrite <- Zlt_Qlt. lia.
Qed.

Lemma round_Z (z : Z) : (0 <= z < 2 ^ 53)%Z -> round (inject_Z z) == inject_Z z.
Proof.
  intros Hz. pose proof (round_repr z 0 Hz ltac:(discriminate)) as H.
  assert (E : inject_Z z * 2 ^ 0 == inject_Z z) by (simpl; ring).
  rewrite <- E at 2. rewrite <- H. apply round_comp.
  - change 0 with (inject_Z 0). rewrite <- Zle_Qle. lia.
  - symmetry; exact E.
Qed.

Lemma round_rel (x : Q) : 2 ^ (-1022) <= x -> round x <= x * (1 + u53).
Proof.
  intros Hn. assert (P : 0 < x) by exact (Qlt_le_trans _ _ _ (two_pow_pos _) Hn).
  rewrite (round_of_pos x P). apply round_pos_rel, Hn.
Qed.

Lemma round_pos_comp (x y : Q) : 0 < x -> x == y -> round_pos x == round_pos y.
Proof.
  intros Hx E. apply Qle_antisym; apply round_pos_mono; lra.
Qed.

Lemma Qnum_neg_iff (q : Q) : q < 0 <-> (Qnum q < 0)%Z.
Proof. unfold Qlt. simpl. rewrite Z.mul_1_r. reflexivity. Qed.

Lemma round_of_neg (x : Q) : x < 0 -> round x == - round_pos (- x).
Proof.
  intros Hx. apply Qnum_neg_iff in Hx. unfold round.
  destruct (Qnum x); try lia. apply Qred_correct.
Qed.

#[global] Instance round_Proper : Proper (Qeq ==> Qeq) round.
Proof.
  intros x y E. destruct (Q_dec x 0) as [[N|P]|Z].
  - assert (Ny : y < 0) by lra.
    rewrite (round_of_neg x N), (round_of_neg y Ny).
    apply Qopp_comp, round_pos_comp; lra.
  - assert (Py : 0 < y) by lra.
    rewrite (round_of_pos x P), (round_of_pos y Py).
    apply round_pos_comp; assumption.
  - assert (Zy : y == 0) by lra.
    rewrite (round_of_zero x Z), (round_of_zero y Zy). reflexivity.
Qed.

End Rounding.

(** ** Float operations of the planner *)

Section FloatOps.

Import B64.
Local Open Scope Q_scope.

Lemma fl_inv (q r : Q) : fl q = Ok r -> r = round q.
Proof.
  unfold fl. destruct (finite (round q)); intros H; inversion H; reflexivity.
Qed.

Lemma finite_bounded (r : Q) : 0 <= r -> r <= 2 ^ 63 -> finite r = true.
Proof.
  intros H0 H1. unfold finite. apply negb_true_iff.
  destruct (Qle_bool (2 ^ emax) (Qabs r)) eqn:E; [exfalso|reflexivity].
  apply Qle_bool_iff in E. rewrite (Qabs_pos r H0) in E.
  assert (L : 2 ^ 63 < 2 ^ emax) by (apply Qpower_lt_compat_l; reflexivity).
  exact (Qlt_irrefl _ (Qlt_le_trans _ _ _ L (Qle_trans _ _ _ E H1))).
Qed.

Lemma fl_ok (q : Q) : 0 <= round q -> round q <= 2 ^ 63 -> fl q = Ok (round q).
Proof.
  intros H0 H1. unfold fl. rewrite (finite_bounded _ H0 H1). reflexivity.
Qed.

Lemma int_of_float_floor (q : Q) : 0 <= q -> int_of_float q = Qfloor q.
Proof.
  intros H. destruct q as [n d]. unfold int_of_float, Qfloor. simpl.
  apply Z.quot_div_nonneg; [|reflexivity].
  unfold Qle in H. simpl in H. lia.
Qed.

Lemma int_of_float_Z (z : Z) : int_of_float (inject_Z z) = z.
Proof. unfold int_of_float. simpl. apply Z.quot_1_r. Qed.

Lemma inject_Z_nonneg (z : Z) : (0 <= z)%Z -> 0 <= inject_Z z.
Proof. intros H. change 0 with (inject_Z 0). rewrite <- Zle_Qle. exact H. Qed.

Lemma begin_at_nonneg (ci : Q) (i : Z) : 0 <= ci -> (0 <= i)%Z -> 0 <= begin_at ci i.
Proof.
  intros Hc Hi. unfold begin_at. apply round_nonneg, Qmult_le_0_compat; [exact Hc|].
  apply round_nonneg, inject_Z_nonneg, Hi.
Qed.

Lemma begin_at_mono (ci : Q) (i j : Z) :
  0 <= ci -> (0 <= i <= j)%Z -> begin_at ci i <= begin_at ci j.
Proof.
  intros Hc [Hi Hij]. unfold begin_at.
  assert (Hr : round (inject_Z i) <= round (inject_Z j)).
  { apply round_mono; [apply inject_Z_nonneg, Hi | rewrite <- Zle_Qle; exact Hij]. }
  assert (H0 : 0 <= round (inject_Z i)) by (apply round_nonneg, inject_Z_nonneg, Hi).
  apply round_mono.
  - apply Qmult_le_0_compat; assumption.
  - rewrite !(Qmult_comm ci). apply Qmult_le_compat_r; assumption.
Qed.

Lemma begin_mono (ci : Q) (i j : Z) :
  0 <= ci -> (0 <= i <= j)%Z ->
  (int_of_float (begin_at ci i) <= int_of_float (begin_at ci j))%Z.
Proof.
  intros Hc Hij.
  rewrite !int_of_float_floor by (apply begin_at_nonneg; [assumption|lia]).
  apply Qfloor_resp_le, begin_at_mono; assumption.
Qed.

Lemma begin_nonneg (ci : Q) (i : Z) :
  0 <= ci -> (0 <= i)%Z -> (0 <= int_of_float (begin_at ci i))%Z.
Proof.
  intros Hc Hi. rewrite int_of_float_floor by (apply begin_at_nonneg; assumption).
  rewrite <- (Qfloor_Z 0). apply Qfloor_resp_le, begin_at_nonneg; assumption.
Qed.

Lemma shred_step_inv (ci : Q) (L i : Z) (st st' : Z * list window) :
  shred_step ci L i st = Ok st' -> st' = step_result ci L i st.
Proof.
  destruct st as [prev ranges]. unfold shred_step, step_result, float_of_int, float_mul, float_add.
  destruct (fl (inject_Z i)) as [fi|] eqn:E1; simpl; [|discriminate].
  destruct (fl (ci * fi)) as [bf|] eqn:E2; simpl; [|discriminate].
  destruct (fl (inject_Z L)) as [fs|] eqn:E3; simpl; [|discriminate].
  destruct (fl (bf + fs)) as [ef|] eqn:E4; simpl; [|discriminate].
  apply fl_inv in E1, E2, E3, E4. subst fi bf fs ef.
  fold (begin_at ci i). fold (end_at ci L i).
  destruct (_ =? prev)%Z; intros H; inversion H; reflexivity.
Qed.

End FloatOps.

(** ** The loop of the planner: increasing begins *)

Section Increasing.

Import B64.

Lemma StronglySorted_snoc (l : list Z) (x : Z) :
  StronglySorted Z.lt l -> Forall (fun b => b < x) l ->
  StronglySorted Z.lt (l ++ [x]).
Proof.
  induction l as [|a l IH]; intros Hs Hx; simpl.
  - constructor; constructor.
  - inversion Hs as [|? ? Hs' Ha]; subst. inversion Hx as [|? ? Hax Hx']; subst.
    constructor.
    + apply IH; assumption.
    + apply Forall_app; split; [exact Ha|]. constructor; [exact Hax | constructor].
Qed.

Lemma StronglySorted_lt_NoDup (l : list Z) : StronglySorted Z.lt l -> NoDup l.
Proof.
  induction 1 as [|a l Hs IH Ha]; constructor; [|exact IH].
  intros Hin. rewrite Forall_forall in Ha. specialize (Ha a Hin). lia.
Qed.

Lemma step_result_increasing (ci : Q) (L i : Z) (st : Z * list window) :
  (0 <= ci)%Q -> 0 <= i ->
  increasing_upto ci i st -> increasing_upto ci (i + 1) (step_result ci L i st).
Proof.
  intros Hc Hi (Hs & Hle & Hp). destruct st as [prev ranges]. simpl in *.
  pose proof (begin_mono ci i (i + 1) Hc ltac:(lia)) as Hm.
  unfold step_result. simpl.
  destruct (Z.eqb_spec (int_of_float (begin_at ci i)) prev) as [E|NE].
  - repeat split; simpl; [exact Hs | exact Hle | lia].
  - repeat split; simpl.
    + rewrite map_app. simpl. apply StronglySorted_snoc; [exact Hs|].
      eapply Forall_impl; [|exact Hle]. simpl. intros b Hb. lia.
    + rewrite map_app. simpl. apply Forall_app; split.
      * eapply Forall_impl; [|exact Hle]. simpl. intros b Hb. lia.
      * constructor; [lia | constructor].
    + exact Hm.
Qed.

Lemma loop_increasing (ci : Q) (L : Z) (n a : nat) (st st' : Z * list window) :
  (0 <= ci)%Q ->
  for_each (shred_step ci L) (map Z.of_nat (seq a n)) st = Ok st' ->
  increasing_upto ci (Z.of_nat a) st ->
  StronglySorted Z.lt (map fst (snd st')).
Proof.
  intros Hc. revert a st. induction n as [|n IH]; intros a st Hrun Hinv.
  - simpl in Hrun. inversion Hrun; subst. apply Hinv.
  - simpl in Hrun.
    destruct (shred_step ci L (Z.of_nat a) st) as [st1|] eqn:E; simpl in Hrun;
      [|discriminate].
    apply shred_step_inv in E. subst st1.
    apply (IH (S a) _ Hrun).
    replace (Z.of_nat (S a)) with (Z.of_nat a + 1) by lia.
    apply step_result_increasing; [exact Hc | lia | exact Hinv].
Qed.

End Increasing.

(** ** The planner, case by case *)

Section Planner.

Import B64.

Lemma numreads_of_inv (seqlen readlen depth N : Z) :
  numreads_of seqlen readlen depth = Ok N ->
  shredlen_of seqlen readlen <> 0 /\
  N = Z.max (seqlen * depth / shredlen_of seqlen readlen) 1.
Proof.
  unfold numreads_of, int_div.
  destruct (Z.eqb_spec (shredlen_of seqlen readlen) 0) as [E|NE]; simpl; [discriminate|].
  intros H. inversion H. split; [exact NE | reflexivity].
Qed.

Lemma numreads_of_ok (seqlen readlen depth : Z) :
  shredlen_of seqlen readlen <> 0 ->
  numreads_of seqlen readlen depth =
  Ok (Z.max (seqlen * depth / shredlen_of seqlen readlen) 1).
Proof.
  intros NE. unfold numreads_of, int_div.
  destruct (Z.eqb_spec (shredlen_of seqlen readlen) 0) as [E|_]; [contradiction|reflexivity].
Qed.

Lemma center_range_width_ge (seqlen readlen : Z) :
  50 <= seqlen - shredlen_of seqlen readlen.
Proof. unfold shredlen_of. lia. Qed.

Lemma plan_windows_inv (seqlen readlen depth : Z) (ws : list window) :
  plan_windows seqlen readlen depth = Ok ws ->
  exists N, numreads_of seqlen readlen depth = Ok N /\
    ((N = 1 /\ ws = [(0, shredlen_of seqlen readlen)]) \/
     (2 <= N <= sys_maxint /\
      exists ci st,
        center_increments_of (seqlen - shredlen_of seqlen readlen) N = Ok ci /\
        for_each (shred_step ci (shredlen_of seqlen readlen))
          (map Z.of_nat (seq 0 (Z.to_nat N))) (-1, []) = Ok st /\
        ws = snd st)).
Proof.
  unfold plan_windows.
  destruct (numreads_of seqlen readlen depth) as [N|] eqn:EN; simpl; [|discriminate].
  intros H. exists N. split; [reflexivity|].
  destruct (numreads_of_inv _ _ _ _ EN) as [_ HN].
  destruct (Z.eqb_spec N 1) as [E1|NE1].
  - left. inversion H. split; [exact E1 | reflexivity].
  - right.
    destruct (center_increments_of _ N) as [ci|] eqn:Eci; simpl in H; [|discriminate].
    unfold xrange in H.
    destruct (N >? sys_maxint) eqn:Emax; simpl in H; [discriminate|].
    destruct (for_each _ _ _) as [st|] eqn:Eloop; simpl in H; [|discriminate].
    inversion H. split; [lia|]. exists ci, st. repeat split.
    exact Eloop.
Qed.

Lemma center_increments_nonneg (W N : Z) (ci : Q) :
  center_increments_of W N = Ok ci -> 0 <= W -> 1 <= N - 1 -> (0 <= ci)%Q.
Proof.
  unfold center_increments_of, float_of_int, float_mul, float_div.
  intros H HW HN.
  destruct (fl (inject_Z W)) as [w|] eqn:E1; simpl in H; [|discriminate].
  destruct (fl (w * 1)) as [w1|] eqn:E2; simpl in H; [|discriminate].
  destruct (fl (inject_Z (N - 1))) as [n1|] eqn:E3; simpl in H; [|discriminate].
  destruct (Qeq_bool n1 0) eqn:Ez; [discriminate|].
  apply fl_inv in E1, E2, E3, H. subst.
  assert (H1 : (0 <= round (inject_Z W))%Q) by (apply round_nonneg, inject_Z_nonneg, HW).
  assert (H2 : (0 <= round (round (inject_Z W) * 1))%Q).
  { apply round_nonneg. rewrite Qmult_1_r. exact H1. }
  assert (H3 : (0 <= round (inject_Z (N - 1)))%Q).
  { apply round_nonneg, inject_Z_nonneg. lia. }
  apply round_nonneg. apply Qle_shift_div_l.
  - apply Qeq_bool_neq in Ez. destruct (Qle_zero_cases _ H3) as [Z|P]; [contradiction|exact P].
  - rewrite Qmult_0_l. exact H2.
Qed.

End Planner.

(** C3: the begins of the windows the planner emits for one sequence
    increase strictly from each window to the next, so no two windows of
    the sequence start at the same position. *)
Theorem emitted_begins_strictly_increasing (seqlen readlen depth : Z) (ws : list window) :
  plan_windows seqlen readlen depth = Ok ws ->
  Sorted Z.lt (map fst ws) /\ NoDup (map fst ws).
Proof.
  intros H.
  assert (S : StronglySorted Z.lt (map fst ws)).
  { destruct (plan_windows_inv _ _ _ _ H)
      as (N & HN & [[_ ->]|[[HN2 _] (ci & st & Hci & Hloop & ->)]]).
    - simpl. constructor; constructor.
    - assert (Hc : (0 <= ci)%Q).
      { apply (center_increments_nonneg _ _ _ Hci); [|lia].
        pose proof (center_range_width_ge seqlen readlen). lia. }
      apply (loop_increasing ci _ _ 0%nat _ st Hc Hloop).
      repeat split; simpl; [constructor | constructor |].
      pose proof (begin_nonneg ci 0 Hc ltac:(lia)). lia. }
  split; [apply StronglySorted_Sorted, S | apply StronglySorted_lt_NoDup, S].
Qed.

Lemma emitted_begins_strictly_increasing_witness :
  plan_windows 2150 1000 2 = Ok [(0, 1000); (383, 1383); (766, 1766); (1150, 2150)] /\
  Sorted Z.lt [0; 383; 766; 1150] /\ NoDup [0; 383; 766; 1150].
Proof.
  split; [vm_compute; reflexivity|].
  apply (emitted_begins_strictly_increasing 2150 1000 2
           [(0, 1000); (383, 1383); (766, 1766); (1150, 2150)]).
  vm_compute; reflexivity.
Defined.

(** ** The planner on sequences held in memory: every pass succeeds and
       stays inside the sequence *)

Section InBounds.

Import B64.
Local Open Scope Q_scope.

Lemma Qle_inject (a b : Z) : (a <= b)%Z -> inject_Z a <= inject_Z b.
Proof. rewrite <- Zle_Qle. exact (fun H => H). Qed.

Lemma round_le_repr (x : Q) (m k : Z) :
  0 <= x -> (0 <= m < 2 ^ 53)%Z -> (etiny <= k)%Z ->
  x <= inject_Z m * 2 ^ k -> round x <= inject_Z m * 2 ^ k.
Proof.
  intros Hx Hm Hk H. rewrite <- (round_repr m k Hm Hk). apply round_mono; assumption.
Qed.

Lemma round_le_Z (x : Q) (z : Z) :
  0 <= x -> (0 <= z < 2 ^ 53)%Z -> x <= inject_Z z -> round x <= inject_Z z.
Proof.
  intros Hx Hz H. rewrite <- (round_Z z Hz). apply round_mono; assumption.
Qed.

Lemma round_ge_Z (x : Q) (z : Z) :
  (0 <= z < 2 ^ 53)%Z -> inject_Z z <= x -> inject_Z z <= round x.
Proof.
  intros Hz H. rewrite <- (round_Z z Hz). apply round_mono; [apply inject_Z_nonneg; lia | exact H].
Qed.

Lemma two_pow_63 : 2 ^ 63 == inject_Z (2 ^ 63).
Proof. reflexivity. Qed.

Lemma round_le_2_63 (x : Q) : 0 <= x -> x <= 2 ^ 63 -> round x <= 2 ^ 63.
Proof.
  intros Hx H.
  assert (E : 2 ^ 63 == inject_Z 1 * 2 ^ 63) by (change (inject_Z 1) with 1; ring).
  rewrite E. apply round_le_repr; [exact Hx | lia | discriminate |].
  rewrite <- E. exact H.
Qed.

Variables seqlen readlen N : Z.

Let L : Z := shredlen_of seqlen readlen.
Let W : Z := (seqlen - L)%Z.

Hypothesis L_pos : (0 < L)%Z.
Hypothesis seqlen_max : (seqlen <= max_seqlen)%Z.
Hypothesis N_range : (2 <= N <= sys_maxint)%Z.

Let n1 : Q := round (inject_Z (N - 1)).
Let ci : Q := round (round (round (inject_Z W) * 1) / n1).

Lemma W_range : (50 <= W < 2 ^ 48)%Z.
Proof.
  pose proof (center_range_width_ge seqlen readlen).
  unfold W, L, max_seqlen in *. lia.
Qed.

Lemma n1_range : 1 <= n1 /\ n1 <= 2 ^ 63.
Proof.
  unfold n1. unfold sys_maxint in N_range. split.
  - change 1 with (inject_Z 1). apply round_ge_Z; [lia|]. apply Qle_inject. lia.
  - apply round_le_2_63; [apply inject_Z_nonneg; lia|].
    rewrite two_pow_63. apply Qle_inject. lia.
Qed.

Lemma ci_eq : ci == round (inject_Z W / n1).
Proof.
  unfold ci. pose proof W_range as HW.
  rewrite (round_Z W) by lia. rewrite Qmult_1_r. rewrite (round_Z W) by lia.
  reflexivity.
Qed.

Lemma ci_nonneg : 0 <= ci.
Proof.
  rewrite ci_eq. pose proof W_range as HW. destruct n1_range as [H1 _].
  apply round_nonneg. apply Qle_shift_div_l; [lra|].
  rewrite Qmult_0_l. apply inject_Z_nonneg. lia.
Qed.

Lemma ci_le_W : ci <= inject_Z W.
Proof.
  rewrite ci_eq. pose proof W_range as HW. destruct n1_range as [H1 _].
  assert (H0 : 0 <= inject_Z W) by (apply inject_Z_nonneg; lia).
  apply round_le_Z; [|lia|].
  - apply Qle_shift_div_l; [lra|]. rewrite Qmult_0_l. exact H0.
  - apply Qle_shift_div_r; [lra|]. nra.
Qed.

Lemma ci_times_n1 : ci * n1 <= inject_Z W + (1 # 32).
Proof.
  pose proof W_range as HW. destruct n1_range as [H1 H2].
  assert (H0 : 50 <= inject_Z W) by (apply (Qle_inject 50); lia).
  assert (H48 : inject_Z W <= inject_Z (2 ^ 48)) by (apply Qle_inject; lia).
  assert (Hn : 2 ^ (-1022) <= inject_Z W / n1).
  { apply Qle_shift_div_l; [lra|].
    apply Qle_trans with (2 ^ (-1022) * 2 ^ 63).
    - apply Qmult_le_compat_nonneg; split;
        [apply Qlt_le_weak, two_pow_pos | apply Qle_refl | lra | exact H2].
    - rewrite <- two_pow_add. apply Qle_trans with 1; [|lra].
      change 1 with (2 ^ 0). apply two_pow_le. lia. }
  pose proof (round_rel _ Hn) as Hr. rewrite <- ci_eq in Hr.
  assert (Hm : ci * n1 <= inject_Z W / n1 * (1 + u53) * n1).
  { apply Qmult_le_compat_r; [exact Hr | lra]. }
  assert (Hs : inject_Z W / n1 * (1 + u53) * n1 == inject_Z W * (1 + u53)).
  { field. lra. }
  rewrite Hs in Hm. change (inject_Z (2 ^ 48)) with (281474976710656 # 1) in H48.
  unfold u53 in Hm. change (2 ^ 53)%positive with 9007199254740992%positive in Hm.
  lra.
Qed.

Lemma sixteenth (z : Z) : inject_Z z + (1 # 16) == inject_Z (16 * z + 1) * 2 ^ (-4).
Proof.
  rewrite inject_Z_plus, inject_Z_mult. change (2 ^ (-4)) with (1 # 16).
  change (inject_Z 16) with 16. change (inject_Z 1) with 1. field.
Qed.

Lemma round_le_sixteenth (x : Q) (z : Z) :
  0 <= x -> (0 <= z <= 2 ^ 48)%Z -> x <= inject_Z z + (1 # 16) ->
  round x <= inject_Z z + (1 # 16).
Proof.
  intros Hx Hz H. rewrite sixteenth in *.
  apply round_le_repr; [exact Hx | lia | discriminate | exact H].
Qed.

Lemma L_range : (0 < L <= seqlen - 50)%Z.
Proof. split; [exact L_pos | unfold L, shredlen_of; lia]. Qed.

Lemma round_i_range (i : Z) :
  (0 <= i <= N - 1)%Z -> 0 <= round (inject_Z i) /\ round (inject_Z i) <= n1.
Proof.
  intros Hi. split.
  - apply round_nonneg, inject_Z_nonneg. lia.
  - unfold n1. apply round_mono; [apply inject_Z_nonneg; lia | apply Qle_inject; lia].
Qed.

Lemma begin_at_upper (i : Z) :
  (0 <= i <= N - 1)%Z -> begin_at ci i <= inject_Z W + (1 # 16).
Proof.
  intros Hi. destruct (round_i_range i Hi) as [H0 H1].
  pose proof ci_nonneg as Hc. pose proof ci_times_n1 as Hn. pose proof W_range as HW.
  unfold begin_at. apply round_le_sixteenth; [|lia|].
  - apply Qmult_le_0_compat; assumption.
  - apply Qle_trans with (ci * n1); [|lra].
    rewrite !(Qmult_comm ci). apply Qmult_le_compat_r; assumption.
Qed.

Lemma round_L : round (inject_Z L) == inject_Z L.
Proof.
  pose proof L_range. apply round_Z. unfold max_seqlen in seqlen_max. lia.
Qed.

Lemma end_at_upper (i : Z) :
  (0 <= i <= N - 1)%Z -> end_at ci L i <= inject_Z seqlen + (1 # 16).
Proof.
  intros Hi. pose proof (begin_at_upper i Hi) as Hb.
  pose proof (begin_at_nonneg ci i ci_nonneg ltac:(lia)) as H0.
  pose proof L_range as HL.
  assert (HLq : 0 <= inject_Z L) by (apply inject_Z_nonneg; lia).
  assert (E : inject_Z seqlen == inject_Z W + inject_Z L).
  { rewrite <- inject_Z_plus. unfold W. apply inject_Z_injective. lia. }
  unfold end_at. rewrite round_L.
  apply round_le_sixteenth; [lra | unfold max_seqlen in seqlen_max; lia | lra].
Qed.

Lemma end_at_lower (i : Z) :
  (0 <= i <= N - 1)%Z ->
  inject_Z (Qfloor (begin_at ci i) + 1) <= end_at ci L i.
Proof.
  intros Hi. pose proof (begin_at_upper i Hi) as Hb.
  pose proof (begin_at_nonneg ci i ci_nonneg ltac:(lia)) as H0.
  pose proof L_range as HL. pose proof W_range as HW.
  pose proof (Qfloor_le (begin_at ci i)) as Hf.
  assert (Hf0 : (0 <= Qfloor (begin_at ci i))%Z).
  { rewrite <- (Qfloor_Z 0). apply Qfloor_resp_le. exact H0. }
  assert (HfW : (Qfloor (begin_at ci i) <= W)%Z).
  { assert (Qfloor (begin_at ci i) < W + 1)%Z; [|lia].
    rewrite Zlt_Qlt. apply Qle_lt_trans with (begin_at ci i); [exact Hf|].
    rewrite inject_Z_plus. change (inject_Z 1) with 1. lra. }
  assert (HLq : 1 <= inject_Z L) by (apply (Qle_inject 1); lia).
  unfold end_at. rewrite round_L. apply round_ge_Z; [lia|].
  rewrite inject_Z_plus. change (inject_Z 1) with 1. lra.
Qed.

Lemma pass_window_in (i : Z) :
  (0 <= i <= N - 1)%Z ->
  window_in seqlen (int_of_float (begin_at ci i), int_of_float (end_at ci L i)).
Proof.
  intros Hi.
  pose proof (begin_at_nonneg ci i ci_nonneg ltac:(lia)) as H0.
  pose proof (end_at_lower i Hi) as Hl. pose proof (end_at_upper i Hi) as Hu.
  assert (Hf0 : (0 <= Qfloor (begin_at ci i))%Z).
  { rewrite <- (Qfloor_Z 0). apply Qfloor_resp_le. exact H0. }
  assert (He0 : 0 <= end_at ci L i).
  { apply Qle_trans with (inject_Z (Qfloor (begin_at ci i) + 1)); [|exact Hl].
    apply inject_Z_nonneg. lia. }
  unfold window_in. simpl. rewrite !int_of_float_floor by assumption.
  split; [exact Hf0|]. split.
  - assert (Qfloor (begin_at ci i) + 1 <= Qfloor (end_at ci L i))%Z; [|lia].
    rewrite <- (Qfloor_Z (Qfloor (begin_at ci i) + 1)). apply Qfloor_resp_le. exact Hl.
  - assert (Qfloor (end_at ci L i) < seqlen + 1)%Z; [|lia].
    rewrite Zlt_Qlt. apply Qle_lt_trans with (end_at ci L i); [apply Qfloor_le|].
    rewrite inject_Z_plus. change (inject_Z 1) with 1. lra.
Qed.

Lemma pass_window_len (i : Z) :
  (0 <= i <= N - 1)%Z ->
  window_len L (int_of_float (begin_at ci i), int_of_float (end_at ci L i)).
Proof.
  intros Hi.
  pose proof (begin_at_nonneg ci i ci_nonneg ltac:(lia)) as H0.
  pose proof (begin_at_upper i Hi) as Hb. pose proof (end_at_lower i Hi) as Hl.
  pose proof L_range as HL. pose proof W_range as HW.
  pose proof (Qfloor_le (begin_at ci i)) as Hf.
  pose proof (Qlt_floor (begin_at ci i)) as Hf'.
  assert (Hf0 : (0 <= Qfloor (begin_at ci i))%Z).
  { rewrite <- (Qfloor_Z 0). apply Qfloor_resp_le. exact H0. }
  assert (HfW : (Qfloor (begin_at ci i) <= W)%Z).
  { assert (Qfloor (begin_at ci i) < W + 1)%Z; [|lia].
    rewrite Zlt_Qlt. apply Qle_lt_trans with (begin_at ci i); [exact Hf|].
    rewrite inject_Z_plus. change (inject_Z 1) with 1. lra. }
  assert (He0 : 0 <= end_at ci L i).
  { apply Qle_trans with (inject_Z (Qfloor (begin_at ci i) + 1)); [|exact Hl].
    apply inject_Z_nonneg. lia. }
  assert (HLq : 0 <= inject_Z L) by (apply inject_Z_nonneg; lia).
  unfold max_seqlen in seqlen_max.
  unfold window_len. simpl. rewrite !int_of_float_floor by assumption.
  set (b := Qfloor (begin_at ci i)) in *. split.
  - assert (b + L <= Qfloor (end_at ci L i))%Z; [|lia].
    rewrite <- (Qfloor_Z (b + L)). apply Qfloor_resp_le.
    unfold end_at. rewrite round_L. apply round_ge_Z; [unfold W in *; lia|].
    rewrite inject_Z_plus. lra.
  - assert (Qfloor (end_at ci L i) <= b + 1 + L)%Z; [|lia].
    rewrite <- (Qfloor_Z (b + 1 + L)). apply Qfloor_resp_le.
    unfold end_at. rewrite round_L. apply round_le_Z; [lra | unfold W in *; lia |].
    rewrite !inject_Z_plus in *. lra.
Qed.

Lemma seqlen_small : inject_Z seqlen + (1 # 16) <= 2 ^ 63.
Proof.
  assert (H : inject_Z seqlen <= inject_Z (2 ^ 48)) by (apply Qle_inject, seqlen_max).
  change (inject_Z (2 ^ 48)) with (281474976710656 # 1) in H.
  change (2 ^ 63) with (9223372036854775808 # 1). lra.
Qed.

Lemma shred_step_total (i : Z) (st : Z * list window) :
  (0 <= i <= N - 1)%Z -> shred_step ci L i st = Ok (step_result ci L i st).
Proof.
  intros Hi. destruct st as [prev ranges].
  destruct (round_i_range i Hi) as [Hi0 Hi1]. destruct n1_range as [_ Hn1].
  pose proof (begin_at_nonneg ci i ci_nonneg ltac:(lia)) as Hb0.
  pose proof (begin_at_upper i Hi) as Hb1.
  pose proof (end_at_upper i Hi) as He1. pose proof (end_at_lower i Hi) as He0.
  pose proof seqlen_small as Hs. pose proof L_range as HL. pose proof W_range as HW.
  assert (HWs : inject_Z W <= inject_Z seqlen) by (apply Qle_inject; unfold W; lia).
  assert (HLs : inject_Z L <= inject_Z seqlen) by (apply Qle_inject; lia).
  assert (HL0 : 0 <= inject_Z L) by (apply inject_Z_nonneg; lia).
  assert (Hf0 : (0 <= Qfloor (begin_at ci i))%Z).
  { rewrite <- (Qfloor_Z 0). apply Qfloor_resp_le. exact Hb0. }
  assert (Hf1 : 0 <= inject_Z (Qfloor (begin_at ci i) + 1)) by (apply inject_Z_nonneg; lia).
  unfold shred_step, float_of_int, float_mul, float_add.
  rewrite (fl_ok (inject_Z i)) by lra. simpl.
  fold (begin_at ci i). rewrite (fl_ok (ci * round (inject_Z i))) by (fold (begin_at ci i); lra).
  simpl. rewrite (fl_ok (inject_Z L)) by (rewrite round_L; lra). simpl.
  fold (begin_at ci i). fold (end_at ci L i).
  rewrite (fl_ok (begin_at ci i + round (inject_Z L))) by (fold (end_at ci L i); lra).
  simpl. unfold step_result. simpl.
  fold (end_at ci L i). destruct (_ =? prev)%Z; reflexivity.
Qed.

Lemma center_increments_total : center_increments_of W N = Ok ci.
Proof.
  pose proof W_range as HW. destruct n1_range as [Hn0 Hn1].
  assert (HW0 : 0 <= inject_Z W) by (apply inject_Z_nonneg; lia).
  assert (HW1 : inject_Z W <= 2 ^ 63).
  { apply Qle_trans with (inject_Z seqlen + (1 # 16)); [|apply seqlen_small].
    assert (inject_Z W <= inject_Z seqlen) by (apply Qle_inject; pose proof L_range; unfold W; lia).
    lra. }
  assert (RW : round (inject_Z W) == inject_Z W) by (apply round_Z; lia).
  assert (RW1 : round (round (inject_Z W) * 1) == inject_Z W).
  { rewrite RW, Qmult_1_r. exact RW. }
  unfold center_increments_of, float_of_int, float_mul, float_div.
  rewrite (fl_ok (inject_Z W)) by (rewrite RW; assumption). simpl.
  rewrite (fl_ok (round (inject_Z W) * 1)) by (rewrite RW1; assumption). simpl.
  rewrite (fl_ok (inject_Z (N - 1))) by (fold n1; lra). simpl. fold n1.
  destruct (Qeq_bool n1 0) eqn:Ez.
  - apply Qeq_bool_eq in Ez. exfalso. lra.
  - apply fl_ok; fold ci; [apply ci_nonneg|].
    apply Qle_trans with (inject_Z W); [apply ci_le_W | exact HW1].
Qed.

End InBounds.

(** ** Loops that cannot raise *)

Lemma for_each_total {S : Type} (I J : S -> Prop) (body : Z -> S -> result S)
  (idx : list Z) (st : S) :
  (forall s, J s -> I s) ->
  (forall i s, In i idx -> I s -> exists s', body i s = Ok s' /\ J s') ->
  I st -> idx <> [] ->
  exists st', for_each body idx st = Ok st' /\ J st'.
Proof.
  intros HJI. revert st. induction idx as [|i rest IH]; intros st Hbody HI Hne.
  - contradiction.
  - destruct (Hbody i st (or_introl eq_refl) HI) as (s1 & E1 & J1).
    simpl. rewrite E1. simpl. destruct rest as [|j rest'].
    + exists s1. split; [reflexivity | exact J1].
    + apply IH; [|apply HJI, J1 | discriminate].
      intros k s Hk. apply Hbody. right. exact Hk.
Qed.

Lemma in_xrange (n : nat) (i : Z) :
  In i (map Z.of_nat (seq 0 n)) -> 0 <= i <= Z.of_nat n - 1.
Proof.
  rewrite in_map_iff. intros (k & <- & Hk). apply in_seq in Hk. lia.
Qed.

Lemma step_result_inside (seqlen : Z) (ci : Q) (L i : Z) (st : Z * list window) :
  (0 <= ci)%Q -> 0 <= i ->
  window_ok seqlen L (int_of_float (begin_at ci i), int_of_float (end_at ci L i)) ->
  inside seqlen L st -> nonempty_inside seqlen L (step_result ci L i st).
Proof.
  intros Hc Hi Hw [Hall Hfirst]. destruct st as [prev ranges]. simpl in *.
  pose proof (begin_nonneg ci i Hc Hi) as Hb.
  unfold step_result, nonempty_inside, inside. simpl.
  destruct (Z.eqb_spec (int_of_float (begin_at ci i)) prev) as [E|NE]; simpl.
  - repeat split; [exact Hall | exact Hfirst |].
    intros Hnil. specialize (Hfirst Hnil). lia.
  - repeat split.
    + apply Forall_app. split; [exact Hall|]. constructor; [exact Hw | constructor].
    + intros Hnil. apply app_eq_nil in Hnil. destruct Hnil as [_ Hnil]. discriminate.
    + intros Hnil. apply app_eq_nil in Hnil. destruct Hnil as [_ Hnil]. discriminate.
Qed.

Lemma plan_windows_total (seqlen readlen depth : Z) :
  0 < shredlen_of seqlen readlen ->
  seqlen <= max_seqlen ->
  seqlen * depth / shredlen_of seqlen readlen <= sys_maxint ->
  exists ws, plan_windows seqlen readlen depth = Ok ws /\ ws <> [] /\
             Forall (window_ok seqlen (shredlen_of seqlen readlen)) ws.
Proof.
  intros HL Hs Hmax.
  unfold plan_windows. rewrite numreads_of_ok by lia. simpl.
  set (N := Z.max (seqlen * depth / shredlen_of seqlen readlen) 1).
  destruct (Z.eqb_spec N 1) as [E1|NE1].
  - exists [(0, shredlen_of seqlen readlen)].
    split; [reflexivity|]. split; [discriminate|].
    constructor; [|constructor].
    unfold window_ok, window_in, window_len, shredlen_of in *. simpl. lia.
  - assert (HN : 2 <= N <= sys_maxint) by (unfold N, sys_maxint in *; lia).
    rewrite (center_increments_total seqlen readlen N HL Hs HN). simpl.
    set (ci := B64.round _).
    assert (Hc : (0 <= ci)%Q) by (apply (ci_nonneg seqlen readlen N HL Hs HN)).
    unfold xrange. destruct (N >? sys_maxint) eqn:Emax; [lia|]. simpl.
    destruct (for_each_total (inside seqlen (shredlen_of seqlen readlen))
                (nonempty_inside seqlen (shredlen_of seqlen readlen))
                (shred_step ci (shredlen_of seqlen readlen))
                (map Z.of_nat (seq 0 (Z.to_nat N))) (-1, []))
      as (st & Est & [[Hall _] Hne]).
    + intros s [H _]. exact H.
    + intros i s Hin HI. apply in_xrange in Hin.
      assert (Hi : 0 <= i <= N - 1) by lia.
      exists (step_result ci (shredlen_of seqlen readlen) i s). split.
      * apply (shred_step_total seqlen readlen N HL Hs HN i s Hi).
      * apply step_result_inside; [exact Hc | lia | | exact HI]. split.
        -- apply (pass_window_in seqlen readlen N HL Hs HN i Hi).
        -- apply (pass_window_len seqlen readlen N HL Hs HN i Hi).
    + split; [constructor | reflexivity].
    + replace (Z.to_nat N) with (S (Z.to_nat (N - 1))) by lia. discriminate.
    + rewrite Est. simpl. exists (snd st). repeat split; assumption.
Qed.

Lemma contig_ranges_long (opts : options) (seqlen : Z) :
  opt_minctglen opts <= seqlen ->
  contig_ranges opts seqlen = plan_windows seqlen (opt_readlen opts) (opt_depth opts).
Proof.
  intros H. unfold contig_ranges.
  destruct (Z.ltb_spec seqlen (opt_minctglen opts)); [lia | reflexivity].
Qed.

(** On such sequences every window holds the effective read length of
    residues, or one residue more. *)
Lemma planned_windows_length (seqlen readlen depth : Z) :
  0 < shredlen_of seqlen readlen ->
  seqlen <= max_seqlen ->
  seqlen * depth / shredlen_of seqlen readlen <= sys_maxint ->
  exists ws, plan_windows seqlen readlen depth = Ok ws /\
             Forall (window_len (shredlen_of seqlen readlen)) ws.
Proof.
  intros HL Hs Hmax.
  destruct (plan_windows_total seqlen readlen depth HL Hs Hmax) as (ws & E & _ & Hall).
  exists ws. split; [exact E|].
  eapply Forall_impl; [|exact Hall]. intros w [_ Hlen]. exact Hlen.
Qed.




(** ** Concrete runs of the planner *)

(** On the inputs below, every float the planner computes is the one the
    reference implementation of binary64 computes. *)
Lemma rounding_agrees_with_reference :
  forallb (fun '(seqlen, readlen, depth) => agree_on seqlen readlen depth)
    [(2150, 1000, 2); (66028, 1000, 2); (100, 1000, 1); (70, 10, 2);
     (3001, 1000, 2); (40, -7, -2)] = true.
Proof. vm_compute. reflexivity. Qed.

(** So are the roundings of integers beyond [2^53] (ties included), of
    quotients in the subnormal range, and the overflow threshold. *)
Lemma rounding_agrees_at_the_limits :
  same_value (sf_of_int (2 ^ 62 + 513)) (B64.round (inject_Z (2 ^ 62 + 513))) = true /\
  same_value (sf_of_int (2 ^ 53 + 1)) (B64.round (inject_Z (2 ^ 53 + 1))) = true /\
  same_value (sf_of_int (2 ^ 53 + 3)) (B64.round (inject_Z (2 ^ 53 + 3))) = true /\
  same_value (sf_of_int (- (2 ^ 53 + 3))) (B64.round (inject_Z (- (2 ^ 53 + 3)))) = true /\
  same_value (SFdiv 53 1024 (sf_pow2 (-1070)) (sf_of_int 3))
    (B64.round (2 ^ (-1070) / 3)%Q) = true /\
  same_value (SFdiv 53 1024 (sf_pow2 (-1074)) (sf_of_int 2))
    (B64.round (2 ^ (-1074) / 2)%Q) = true /\
  same_value (SFdiv 53 1024 (sf_of_int 50) (sf_of_int (2 ^ 63 - 2)))
    (B64.round (50 / B64.round (inject_Z (2 ^ 63 - 2)))%Q) = true /\
  sf_of_int (2 ^ 1024 - 2 ^ 970) = S754_infinity false /\
  B64.finite (B64.round (inject_Z (2 ^ 1024 - 2 ^ 970))) = false /\
  B64.finite (B64.round (inject_Z (2 ^ 1024 - 2 ^ 970 - 1))) = true.
Proof. repeat split; vm_compute; reflexivity. Qed.

(** C4: on a sequence of 2150 residues with read length 1000 and depth 2
    the planner computes the effective read length 1000, 4 reads, the range
    1150 and the increment nearest to 1150/3, and emits exactly the windows
    [0,1000), [383,1383), [766,1766), [1150,2150): four distinct begins, the
    last end being the sequence length. *)
Theorem scenario_2150_1000_2 :
  shredlen_of 2150 1000 = 1000 /\
  numreads_of 2150 1000 2 = Ok 4 /\
  2150 - shredlen_of 2150 1000 = 1150 /\
  center_increments_of 1150 4 = Ok (B64.round (1150 # 3)) /\
  (Qabs (B64.round (1150 # 3) - (1150 # 3)) <= 1 # 2 ^ 45)%Q /\
  plan_windows 2150 1000 2 = Ok [(0, 1000); (383, 1383); (766, 1766); (1150, 2150)] /\
  NoDup [0; 383; 766; 1150] /\
  snd (last [(0, 1000); (383, 1383); (766, 1766); (1150, 2150)] (0, 0)) = 2150.
Proof.
  repeat split; try (vm_compute; reflexivity); try (vm_compute; discriminate).
  repeat constructor; simpl; intuition discriminate.
Qed.

(** C2, at a contig of 66028 residues with the default options: the last
    window the planner emits is [65027, 66028), one residue longer than the
    effective read length 1000.  The float [begin] of the last pass lies just
    below 65028 and truncates to 65027, while [begin + shredlen] rounds up
    to 66028. *)
Theorem last_window_of_66028_has_1001_residues :
  shredlen_of 66028 1000 = 1000 /\
  exists ws, plan_windows 66028 1000 2 = Ok ws /\
             last ws (0, 0) = (65027, 66028) /\
             snd (last ws (0, 0)) - fst (last ws (0, 0)) = 1001.
Proof.
  split; [reflexivity|]. eexists. split; [vm_compute; reflexivity|].
  split; vm_compute; reflexivity.
Qed.

(** C5 as stated fails on a sequence of 100 residues admitted by a minimum
    contig length of 100: with depth 1 and read length 1000 the effective
    read length is 50 and two windows are planned. *)
Lemma two_windows_at_100 :
  let opts := {| opt_depth := 1; opt_readlen := 1000; opt_minctglen := 100;
                 opt_fasta := false |} in
  opt_minctglen opts <= 100 /\ 100 <= opt_readlen opts /\
  0 < shredlen_of 100 (opt_readlen opts) /\
  contig_ranges opts 100 = Ok [(0, 50); (50, 100)] /\
  contig_ranges opts 100 <> Ok [(0, shredlen_of 100 (opt_readlen opts))].
Proof.
  repeat split; try (vm_compute; congruence).
Qed.

(** C5, amended: with depth 1, a read length no shorter than the sequence
    and a sequence of more than 100 residues, the planner produces exactly
    one window, [0, effective read length), the effective read length being
    the sequence length less 50. *)
Theorem single_window_when_read_covers_sequence (opts : options) (seqlen : Z) :
  opt_depth opts = 1 ->
  seqlen <= opt_readlen opts ->
  opt_minctglen opts <= seqlen ->
  100 < seqlen ->
  shredlen_of seqlen (opt_readlen opts) = seqlen - 50 /\
  contig_ranges opts seqlen = Ok [(0, shredlen_of seqlen (opt_readlen opts))].
Proof.
  intros Hd Hr Hmin Hlen.
  assert (HL : shredlen_of seqlen (opt_readlen opts) = seqlen - 50)
    by (unfold shredlen_of; lia).
  split; [exact HL|].
  rewrite (contig_ranges_long opts seqlen Hmin). unfold plan_windows.
  rewrite numreads_of_ok by lia. simpl. rewrite Hd, HL, Z.mul_1_r.
  assert (E : seqlen / (seqlen - 50) = 1).
  { symmetry. apply (Z.div_unique_pos seqlen (seqlen - 50) 1 50); lia. }
  rewrite E. reflexivity.
Qed.

Lemma single_window_when_read_covers_sequence_witness :
  shredlen_of 150 (opt_readlen {| opt_depth := 1; opt_readlen := 1000;
                                  opt_minctglen := 150; opt_fasta := false |}) = 150 - 50 /\
  contig_ranges {| opt_depth := 1; opt_readlen := 1000; opt_minctglen := 150;
                   opt_fasta := false |} 150 =
  Ok [(0, shredlen_of 150 (opt_readlen {| opt_depth := 1; opt_readlen := 1000;
                                          opt_minctglen := 150; opt_fasta := false |}))].
Proof.
  apply (single_window_when_read_covers_sequence
           {| opt_depth := 1; opt_readlen := 1000; opt_minctglen := 150;
              opt_fasta := false |} 150); simpl; lia.
Defined.

(** ** Records *)

Section Records.

Local Open Scope string_scope.

Lemma format_frgTemplate (fragID libID seq qvs : string) (slen : pyval) :
  format frgTemplate []
    [("fragID", PStr fragID); ("libID", PStr libID); ("seq", PStr seq);
     ("qvs", PStr qvs); ("slen", slen)] =
  Ok (lines [ "{FRG"; "act:A"; "acc:" ++ fragID; "rnd:1"; "sta:G"; "lib:" ++ libID;
              "pla:0"; "loc:0"; "src:"; "."; "seq:"; seq; "."; "qlt:"; qvs;
              "."; "hps:"; "."; "clr:" ++ ("0," ++ py_str slen); "}" ]).
Proof. vm_compute. reflexivity. Qed.

Lemma format_headerTemplate (libID : string) :
  format headerTemplate [] [("libID", PStr libID)] =
  Ok (lines [ "{VER"; "ver:2"; "}"; "{LIB"; "act:A"; "acc:" ++ libID; "ori:U";
              "mea:0.0"; "std:0.0"; "src:"; "."; "nft:4"; "fea:";
              "doTrim_initialQualityBased=0"; "doTrim_finalEvidenceBased=0";
              "doRemoveSpurReads=0"; "doRemoveChimericReads=0"; "."; "}" ]).
Proof. vm_compute. reflexivity. Qed.

Lemma append_assoc (a b c : string) : (a ++ b) ++ c = a ++ (b ++ c).
Proof. induction a as [|x a IH]; simpl; [reflexivity | rewrite IH; reflexivity]. Qed.

Lemma append_nil_r (a : string) : a ++ "" = a.
Proof. induction a as [|x a IH]; simpl; [reflexivity | rewrite IH; reflexivity]. Qed.

Lemma str_mul_length (c : ascii) (n : nat) :
  String.length (str_mul (String c EmptyString) n) = n.
Proof. induction n as [|n IH]; simpl; [reflexivity | rewrite IH; reflexivity]. Qed.

Lemma str_mul_get (c : ascii) (n i : nat) :
  (i < n)%nat -> get i (str_mul (String c EmptyString) n) = Some c.
Proof.
  revert i. induction n as [|n IH]; intros i Hi; [lia|].
  destruct i as [|i]; simpl; [reflexivity | apply IH; lia].
Qed.

Variable SeqIO_write_fasta : string -> string -> string.

Lemma emitFragment_structured (fragID libID seq : string) (fw : stream) :
  emitFragment SeqIO_write_fasta fragID libID seq false fw =
  (Ok tt,
   (fw ++ [frg_record fragID libID seq (str_mul DEFAULTQV (String.length seq))
             ("0," ++ str_of_int (Z.of_nat (String.length seq)))])%list).
Proof.
  unfold emitFragment, io_bind, io_lift. rewrite format_frgTemplate. reflexivity.
Qed.

End Records.

(** C6: the fragment record [emitFragment] writes in structured mode holds
    the residues in its [seq:] field, in its [qlt:] field a string of the
    same length with the one quality character ['='] at every position, and
    in its [clr:] field ["0,"] followed by the length of the residues. *)
Theorem fragment_record_quality_and_clear_range
  (SeqIO_write_fasta : string -> string -> string)
  (fragID libID seq : string) (fw : stream) :
  exists qlt clr : string,
    emitFragment SeqIO_write_fasta fragID libID seq false fw =
      (Ok tt, fw ++ [frg_record fragID libID seq qlt clr]) /\
    String.length qlt = String.length seq /\
    (forall i, (i < String.length seq)%nat -> get i qlt = Some "="%char) /\
    clr = ("0," ++ str_of_int (Z.of_nat (String.length seq)))%string.
Proof.
  exists (str_mul DEFAULTQV (String.length seq)).
  exists ("0," ++ str_of_int (Z.of_nat (String.length seq)))%string.
  split; [apply emitFragment_structured|]. split; [apply str_mul_length|].
  split; [|reflexivity]. intros i Hi. apply (str_mul_get "="%char). exact Hi.
Qed.

(** ** The stream written by a run *)

Section Run.

Variable SeqIO_write_fasta : string -> string -> string.

Local Open Scope string_scope.

Lemma format_fragID (libID ctgID shredID begin_ end_ : pyval) :
  format "{0}.{1}.frag{2}.{3}-{4}" [libID; ctgID; shredID; begin_; end_] [] =
  Ok (py_str libID ++ "." ++ py_str ctgID ++ ".frag" ++ py_str shredID ++ "." ++
      py_str begin_ ++ "-" ++ py_str end_).
Proof.
  rewrite <- (append_nil_r (py_str end_)). vm_compute. reflexivity.
Qed.

Lemma format_depth (depth : pyval) :
  format ".depth{0}" [depth] [] = Ok (".depth" ++ py_str depth).
Proof.
  rewrite <- (append_nil_r (py_str depth)). vm_compute. reflexivity.
Qed.

Lemma outfile_of_ok (opts : options) (libID : string) :
  outfile_of opts libID = Ok (output_path opts libID).
Proof.
  unfold outfile_of, output_path. rewrite format_depth. reflexivity.
Qed.

Lemma frg_record_not_lib_record (txt : string) :
  is_frg_record txt -> ~ is_lib_record txt.
Proof.
  intros (acc & lib & seq & qlt & clr & ->) (acc' & E).
  unfold frg_record, lib_record, lines in E. simpl in E. discriminate E.
Qed.

Local Close Scope string_scope.

Lemma appends_ret {A : Type} (a : A) : appends_fragments (io_ret a).
Proof. intros fw. exists []. split; [simpl; rewrite app_nil_r; reflexivity | constructor]. Qed.

Lemma appends_lift {A : Type} (r : result A) : appends_fragments (io_lift r).
Proof. intros fw. exists []. split; [simpl; rewrite app_nil_r; reflexivity | constructor]. Qed.

Lemma appends_bind {A B : Type} (m : IO A) (k : A -> IO B) :
  appends_fragments m -> (forall a, appends_fragments (k a)) ->
  appends_fragments (io_bind m k).
Proof.
  intros Hm Hk fw. destruct (Hm fw) as (f1 & E1 & F1). unfold io_bind.
  destruct (m fw) as [[a|e] fw1]; simpl in E1; subst fw1.
  - destruct (Hk a (fw ++ f1)) as (f2 & E2 & F2). exists (f1 ++ f2).
    rewrite E2, app_assoc. split; [reflexivity | apply Forall_app; split; assumption].
  - exists f1. split; [reflexivity | exact F1].
Qed.

Lemma appends_emitFragment (fragID libID seq : string) :
  appends_fragments (emitFragment SeqIO_write_fasta fragID libID seq false).
Proof.
  intros fw. rewrite emitFragment_structured. eexists. split; [reflexivity|].
  constructor; [|constructor]. do 5 eexists. reflexivity.
Qed.

Lemma appends_emit_ranges (opts : options) (libID : string) (ctgID : Z) (seq : string)
  (ranges : list window) (shredID : Z) :
  opt_fasta opts = false ->
  appends_fragments (emit_ranges SeqIO_write_fasta opts libID ctgID seq shredID ranges).
Proof.
  intros Hf. revert shredID. induction ranges as [|[b e] rest IH]; intros shredID; simpl.
  - apply appends_ret.
  - apply appends_bind; [apply appends_lift|]. intros fragID.
    apply appends_bind; [rewrite Hf; apply appends_emitFragment|]. intros _. apply IH.
Qed.

Lemma appends_shred_contig (opts : options) (libID : string) (ctgID : Z)
  (rec : string * string) :
  opt_fasta opts = false ->
  appends_fragments (shred_contig SeqIO_write_fasta opts libID ctgID rec).
Proof.
  intros Hf. unfold shred_contig. destruct (_ <? _).
  - apply appends_ret.
  - apply appends_bind; [apply appends_lift|]. intros ranges.
    apply appends_emit_ranges, Hf.
Qed.

Lemma appends_shred_contigs (opts : options) (libID : string)
  (f : list (string * string)) (ctgID : Z) :
  opt_fasta opts = false ->
  appends_fragments (shred_contigs SeqIO_write_fasta opts libID ctgID f).
Proof.
  intros Hf. revert ctgID. induction f as [|rec rest IH]; intros ctgID; simpl.
  - apply appends_ret.
  - apply appends_bind; [apply appends_shred_contig, Hf|]. intros _. apply IH.
Qed.

Lemma shred_stream_structured (opts : options) (libID : string)
  (f : list (string * string)) (fw : stream) :
  opt_fasta opts = false ->
  shred_stream SeqIO_write_fasta opts libID f fw =
  shred_contigs SeqIO_write_fasta opts libID 0 f (fw ++ [lib_record libID]).
Proof.
  intros Hf. unfold shred_stream. rewrite Hf. simpl.
  unfold io_bind at 1. unfold io_bind at 1. unfold io_lift.
  rewrite format_headerTemplate. reflexivity.
Qed.

Lemma shred_contigs_app (opts : options) (libID : string)
  (pre post : list (string * string)) (ctgID : Z) (fw : stream) :
  shred_contigs SeqIO_write_fasta opts libID ctgID (pre ++ post) fw =
  io_bind (shred_contigs SeqIO_write_fasta opts libID ctgID pre)
    (fun _ => shred_contigs SeqIO_write_fasta opts libID
                (ctgID + Z.of_nat (List.length pre)) post) fw.
Proof.
  revert ctgID fw. induction pre as [|rec pre IH]; intros ctgID fw.
  - simpl. unfold io_bind, io_ret. rewrite Z.add_0_r. reflexivity.
  - simpl app. simpl shred_contigs. unfold io_bind.
    destruct (shred_contig _ _ _ _ _ fw) as [[[]|e] fw1]; [|reflexivity].
    rewrite IH. unfold io_bind.
    replace (ctgID + 1 + Z.of_nat (List.length pre))
      with (ctgID + Z.of_nat (List.length (rec :: pre))) by (simpl List.length; lia).
    reflexivity.
Qed.

End Run.

(** ** Runs of [shred] *)

Lemma shred_fresh (SeqIO_write_fasta : string -> string -> string) (opts : options)
  (fs : filesystem) (fastafile : string) (f : list (string * string)) :
  fs_exists fs (output_path opts (split_head "." fastafile)) = false ->
  shred SeqIO_write_fasta opts fs fastafile f =
  (fst (shred_stream SeqIO_write_fasta opts (split_head "." fastafile) f []),
   fs_store fs (output_path opts (split_head "." fastafile))
     (snd (shred_stream SeqIO_write_fasta opts (split_head "." fastafile) f []))).
Proof.
  intros Hfs. unfold shred, must_open. rewrite outfile_of_ok, Hfs. simpl.
  destruct (shred_stream _ _ _ _ _) as [r fw]. reflexivity.
Qed.

Lemma shred_contig_ranges (SeqIO_write_fasta : string -> string -> string)
  (opts : options) (libID : string) (ctgID : Z) (rec : string * string) (fw : stream) :
  shred_contig SeqIO_write_fasta opts libID ctgID rec fw =
  io_bind (io_lift (contig_ranges opts (Z.of_nat (String.length (snd rec)))))
    (fun ranges => emit_ranges SeqIO_write_fasta opts libID ctgID (snd rec) 0 ranges) fw.
Proof.
  unfold shred_contig, contig_ranges. destruct (_ <? _); reflexivity.
Qed.

(** C7: in structured mode the stream a run of [shred] writes starts with
    the library header record, and the header is written exactly once,
    however many sequences are processed: everything after it is a fragment
    record, and no fragment record is a library header.  This stream is
    what the run leaves in its output file. *)
Theorem library_header_once_and_first
  (SeqIO_write_fasta : string -> string -> string) (opts : options)
  (libID : string) (f : list (string * string)) :
  opt_fasta opts = false ->
  exists frags,
    snd (shred_stream SeqIO_write_fasta opts libID f []) = lib_record libID :: frags /\
    Forall is_frg_record frags /\
    Forall (fun txt => ~ is_lib_record txt) frags /\
    (forall fs fastafile,
       libID = split_head "." fastafile ->
       fs_exists fs (output_path opts libID) = false ->
       snd (shred SeqIO_write_fasta opts fs fastafile f) =
       fs_store fs (output_path opts libID) (lib_record libID :: frags)).
Proof.
  intros Hf.
  destruct (appends_shred_contigs SeqIO_write_fasta opts libID f 0 Hf
              [lib_record libID]) as (frags & E & F).
  assert (Es : snd (shred_stream SeqIO_write_fasta opts libID f []) =
               lib_record libID :: frags).
  { rewrite (shred_stream_structured _ _ _ _ _ Hf). exact E. }
  exists frags. split; [exact Es|]. split; [exact F|]. split.
  - eapply Forall_impl; [|exact F]. apply frg_record_not_lib_record.
  - intros fs fastafile -> Hfs. rewrite (shred_fresh _ _ _ _ _ Hfs). simpl.
    rewrite Es. reflexivity.
Qed.

Lemma library_header_once_and_first_witness :
  exists frags,
    snd (shred_stream (fun id s => (">" ++ id ++ nl ++ s ++ nl)%string) default_options
           "lib" [("c1", "ACGT"); ("c2", str_mul "ACGTACGTAC" 16)]%string []) =
      lib_record "lib" :: frags /\
    Forall is_frg_record frags /\
    Forall (fun txt => ~ is_lib_record txt) frags /\
    (forall fs fastafile,
       "lib"%string = split_head "." fastafile ->
       fs_exists fs (output_path default_options "lib") = false ->
       snd (shred (fun id s => (">" ++ id ++ nl ++ s ++ nl)%string) default_options fs
              fastafile [("c1", "ACGT"); ("c2", str_mul "ACGTACGTAC" 16)]%string) =
       fs_store fs (output_path default_options "lib") (lib_record "lib" :: frags)).
Proof.
  apply (library_header_once_and_first
           (fun id s => (">" ++ id ++ nl ++ s ++ nl)%string) default_options
           "lib" [("c1", "ACGT"); ("c2", str_mul "ACGTACGTAC" 16)]%string).
  reflexivity.
Defined.

(** C8: a sequence shorter than the minimum contig length is skipped: no
    window is planned for it and nothing is written for it, and the
    sequences before and after it are processed as they are without it,
    each under its own index. *)
Theorem short_contig_skipped
  (SeqIO_write_fasta : string -> string -> string) (opts : options)
  (libID name seq : string) :
  Z.of_nat (String.length seq) < opt_minctglen opts ->
  contig_ranges opts (Z.of_nat (String.length seq)) = Ok [] /\
  (forall ctgID fw,
     shred_contig SeqIO_write_fasta opts libID ctgID (name, seq) fw = (Ok tt, fw)) /\
  (forall pre post ctgID fw,
     shred_contigs SeqIO_write_fasta opts libID ctgID (pre ++ (name, seq) :: post) fw =
     io_bind (shred_contigs SeqIO_write_fasta opts libID ctgID pre)
       (fun _ => shred_contigs SeqIO_write_fasta opts libID
                   (ctgID + Z.of_nat (List.length pre) + 1) post) fw).
Proof.
  intros Hshort.
  assert (Hc : forall ctgID fw,
             shred_contig SeqIO_write_fasta opts libID ctgID (name, seq) fw = (Ok tt, fw)).
  { intros ctgID fw. unfold shred_contig. cbn [snd].
    apply Z.ltb_lt in Hshort. rewrite Hshort. reflexivity. }
  split; [|split; [exact Hc|]].
  - unfold contig_ranges.
    destruct (Z.ltb_spec (Z.of_nat (String.length seq)) (opt_minctglen opts));
      [reflexivity | lia].
  - intros pre post ctgID fw. rewrite shred_contigs_app. unfold io_bind.
    destruct (shred_contigs _ _ _ _ pre fw) as [[[]|e] fw1]; [|reflexivity].
    simpl shred_contigs. unfold io_bind. rewrite Hc. reflexivity.
Qed.

Lemma short_contig_skipped_witness :
  contig_ranges default_options (Z.of_nat (String.length (str_mul "ACGTACGTAC" 14))) = Ok [] /\
  (forall ctgID fw,
     shred_contig (fun id s => (">" ++ id ++ nl ++ s ++ nl)%string) default_options
       "lib" ctgID ("c140"%string, str_mul "ACGTACGTAC" 14) fw = (Ok tt, fw)) /\
  (forall pre post ctgID fw,
     shred_contigs (fun id s => (">" ++ id ++ nl ++ s ++ nl)%string) default_options
       "lib" ctgID (pre ++ ("c140"%string, str_mul "ACGTACGTAC" 14) :: post) fw =
     io_bind (shred_contigs (fun id s => (">" ++ id ++ nl ++ s ++ nl)%string)
                default_options "lib" ctgID pre)
       (fun _ => shred_contigs (fun id s => (">" ++ id ++ nl ++ s ++ nl)%string)
                   default_options "lib" (ctgID + Z.of_nat (List.length pre) + 1) post) fw).
Proof.
  apply (short_contig_skipped (fun id s => (">" ++ id ++ nl ++ s ++ nl)%string)
           default_options "lib" "c140" (str_mul "ACGTACGTAC" 14)).
  vm_compute. reflexivity.
Defined.

(** C9: when the output file already exists, [shred], which asks
    [must_open] to fail on an existing file, aborts before the library
    header or any fragment is written and leaves the file system as it
    was. *)
Theorem existing_output_aborts_run
  (SeqIO_write_fasta : string -> string -> string) (opts : options)
  (fs : filesystem) (fastafile : string) (f : list (string * string)) :
  fs_exists fs (output_path opts (split_head "." fastafile)) = true ->
  shred SeqIO_write_fasta opts fs fastafile f = (Raise FileExistsError, fs).
Proof.
  intros Hfs. unfold shred, must_open. rewrite outfile_of_ok, Hfs. reflexivity.
Qed.

Lemma existing_output_aborts_run_witness :
  shred (fun id s => (">" ++ id ++ nl ++ s ++ nl)%string) default_options
    [("lib.depth2.frg", "old")]%string "lib.fasta"
    [("c1", str_mul "ACGTACGTAC" 16)]%string =
  (Raise FileExistsError, [("lib.depth2.frg", "old")]%string).
Proof.
  apply (existing_output_aborts_run (fun id s => (">" ++ id ++ nl ++ s ++ nl)%string)
           default_options [("lib.depth2.frg", "old")]%string "lib.fasta"
           [("c1", str_mul "ACGTACGTAC" 16)]%string).
  reflexivity.
Defined.

(** C10: in plain mode the record [emitFragment] writes for a slice and a
    fragment identifier is the FASTA record of that identifier and slice,
    the same for any two library identifiers. *)
Theorem plain_record_ignores_library
  (SeqIO_write_fasta : string -> string -> string)
  (fragID lib1 lib2 shredded_seq : string) (fw : stream) :
  emitFragment SeqIO_write_fasta fragID lib1 shredded_seq true fw =
  emitFragment SeqIO_write_fasta fragID lib2 shredded_seq true fw /\
  emitFragment SeqIO_write_fasta fragID lib1 shredded_seq true fw =
  (Ok tt, fw ++ [SeqIO_write_fasta fragID shredded_seq]).
Proof. split; reflexivity. Qed.

(* ================================================================== *)
(** * Further properties of [shred] *)
(* ================================================================== *)

Section MorePlanner.

Import B64.

Lemma round_int (z : Z) : Z.abs z < 2 ^ 53 -> (round (inject_Z z) == inject_Z z)%Q.
Proof.
  intros Hz. destruct (Z_lt_le_dec z 0) as [Hneg|Hpos].
  - assert (Hq : (inject_Z z < 0)%Q).
    { change 0%Q with (inject_Z 0). rewrite <- Zlt_Qlt. exact Hneg. }
    rewrite (round_of_neg _ Hq).
    assert (E : (- inject_Z z == inject_Z (- z) * 2 ^ 0)%Q).
    { rewrite inject_Z_opp. simpl. ring. }
    assert (Hp : (0 < - inject_Z z)%Q) by lra.
    rewrite (round_pos_comp _ _ Hp E).
    rewrite round_pos_repr by (try discriminate; lia).
    rewrite inject_Z_opp. simpl. ring.
  - apply round_Z. lia.
Qed.

Lemma int_of_float_eq_Z (q : Q) (z : Z) : (q == inject_Z z)%Q -> int_of_float q = z.
Proof.
  destruct q as [n d]. unfold Qeq, int_of_float. simpl. intros H.
  rewrite Z.mul_1_r in H. rewrite H. apply Z.quot_mul. discriminate.
Qed.

Lemma begin_at_0 (ci : Q) : begin_at ci 0 = 0%Q.
Proof.
  unfold begin_at. rewrite (round_of_zero (inject_Z 0)) by reflexivity.
  apply round_of_zero. ring.
Qed.

Lemma end_at_0 (ci : Q) (L : Z) : Z.abs L < 2 ^ 53 -> int_of_float (end_at ci L 0) = L.
Proof.
  intros HL. apply int_of_float_eq_Z. unfold end_at.
  rewrite begin_at_0, (round_int L HL), Qplus_0_l. apply round_int, HL.
Qed.

Lemma step_result_grows (ci : Q) (L i : Z) (st : Z * list window) :
  exists tail, snd (step_result ci L i st) = snd st ++ tail /\ (List.length tail <= 1)%nat.
Proof.
  unfold step_result. destruct (_ =? _).
  - exists []. rewrite app_nil_r. split; [reflexivity | simpl; lia].
  - eexists. split; [reflexivity | simpl; lia].
Qed.

Lemma loop_grows (ci : Q) (L : Z) (idx : list Z) (st st' : Z * list window) :
  for_each (shred_step ci L) idx st = Ok st' ->
  exists tail, snd st' = snd st ++ tail /\ (List.length tail <= List.length idx)%nat.
Proof.
  revert st. induction idx as [|i rest IH]; intros st H; simpl in H.
  - inversion H. exists []. rewrite app_nil_r. split; [reflexivity | simpl; lia].
  - destruct (shred_step ci L i st) as [st1|] eqn:E; simpl in H; [|discriminate].
    apply shred_step_inv in E. subst st1.
    destruct (step_result_grows ci L i st) as (t1 & E1 & L1).
    destruct (IH _ H) as (t2 & E2 & L2).
    exists (t1 ++ t2). rewrite E2, E1, app_assoc. split; [reflexivity|].
    rewrite length_app. simpl. lia.
Qed.

(** After the first pass the state is [(0, [(0, end)])]. *)
Lemma first_pass (ci : Q) (L : Z) :
  step_result ci L 0 (-1, []) = (0, [(0, int_of_float (end_at ci L 0))]).
Proof.
  unfold step_result. rewrite begin_at_0. reflexivity.
Qed.

Lemma plan_windows_shape (seqlen readlen depth : Z) (ws : list window) :
  plan_windows seqlen readlen depth = Ok ws ->
  exists N e rest,
    numreads_of seqlen readlen depth = Ok N /\
    ws = (0, e) :: rest /\
    (List.length ws <= Z.to_nat N)%nat /\
    (Z.abs (shredlen_of seqlen readlen) < 2 ^ 53 -> e = shredlen_of seqlen readlen).
Proof.
  intros H. destruct (plan_windows_inv _ _ _ _ H)
    as (N & HN & [[E1 ->]|[[HN2 _] (ci & st & Hci & Hloop & ->)]]).
  - exists N, (shredlen_of seqlen readlen), []. subst N.
    repeat split; try assumption. simpl. lia.
  - replace (Z.to_nat N) with (S (Z.to_nat (N - 1))) in * by lia.
    cbn [seq map for_each] in Hloop. change (Z.of_nat 0) with 0 in Hloop.
    destruct (shred_step ci _ 0 (-1, [])) as [st1|] eqn:E; cbn [rbind] in Hloop;
      [|discriminate].
    apply shred_step_inv in E. rewrite first_pass in E. subst st1.
    destruct (loop_grows _ _ _ _ _ Hloop) as (tail & Et & Lt).
    rewrite length_map, length_seq in Lt. simpl in Et.
    exists N, (int_of_float (end_at ci (shredlen_of seqlen readlen) 0)), tail.
    repeat split; try assumption.
    + rewrite Et. simpl. lia.
    + intros HL. apply end_at_0, HL.
Qed.

End MorePlanner.

(** X1: whenever the planner returns, its first window is
    [[0, shredlen)]: the first pass starts at 0 and is never suppressed. *)
Theorem first_window_starts_at_zero (seqlen readlen depth : Z) (ws : list window) :
  plan_windows seqlen readlen depth = Ok ws ->
  Z.abs (shredlen_of seqlen readlen) < 2 ^ 53 ->
  exists rest, ws = (0, shredlen_of seqlen readlen) :: rest.
Proof.
  intros H HL. destruct (plan_windows_shape _ _ _ _ H) as (N & e & rest & _ & E & _ & He).
  exists rest. rewrite E, (He HL). reflexivity.
Qed.

Lemma first_window_starts_at_zero_witness :
  exists rest, [(0, 1000); (383, 1383); (766, 1766); (1150, 2150)] =
               (0, shredlen_of 2150 1000) :: rest.
Proof.
  apply (first_window_starts_at_zero 2150 1000 2); vm_compute; reflexivity.
Defined.

(** X2: the planner emits at least one window and at most [numreads]
    windows: suppressing duplicate begins can only lower the count. *)
Theorem window_count_at_most_numreads (seqlen readlen depth : Z) (ws : list window) :
  plan_windows seqlen readlen depth = Ok ws ->
  exists N, numreads_of seqlen readlen depth = Ok N /\
            1 <= Z.of_nat (List.length ws) <= N.
Proof.
  intros H. destruct (plan_windows_shape _ _ _ _ H) as (N & e & rest & HN & E & Hlen & _).
  exists N. split; [exact HN|].
  destruct (numreads_of_inv _ _ _ _ HN) as [_ HN1].
  rewrite E in *. simpl List.length in *. lia.
Qed.

Lemma window_count_at_most_numreads_witness :
  exists N, numreads_of 2150 1000 2 = Ok N /\
            1 <= Z.of_nat (List.length [(0, 1000); (383, 1383); (766, 1766); (1150, 2150)]) <= N.
Proof.
  apply (window_count_at_most_numreads 2150 1000 2
           [(0, 1000); (383, 1383); (766, 1766); (1150, 2150)]).
  vm_compute. reflexivity.
Defined.

(** X3: when the effective read length is negative (a sequence shorter
    than 50 residues let through by a low minimum contig length, or a
    negative read length) and the depth is not negative, exactly one window
    is planned, [[0, shredlen)] with its negative end. *)
Theorem negative_shredlen_single_window (seqlen readlen depth : Z) :
  0 <= seqlen -> 0 <= depth -> shredlen_of seqlen readlen < 0 ->
  plan_windows seqlen readlen depth = Ok [(0, shredlen_of seqlen readlen)].
Proof.
  intros Hs Hd HL. unfold plan_windows. rewrite numreads_of_ok by lia. simpl.
  set (L := shredlen_of seqlen readlen) in *.
  assert (Hq : seqlen * depth / L <= 0).
  { pose proof (Z.div_mod (seqlen * depth) L ltac:(lia)) as Hdm.
    pose proof (Z.mod_neg_bound (seqlen * depth) L HL) as Hm. nia. }
  replace (Z.max (seqlen * depth / L) 1) with 1 by lia. reflexivity.
Qed.

Lemma negative_shredlen_single_window_witness :
  plan_windows 40 1000 2 = Ok [(0, shredlen_of 40 1000)].
Proof.
  apply (negative_shredlen_single_window 40 1000 2); vm_compute; congruence.
Defined.

Section MoreEmission.

Variable SeqIO_write_fasta : string -> string -> string.

Lemma substring_length (s : string) (n m : nat) :
  (n + m <= String.length s)%nat -> String.length (substring n m s) = m.
Proof.
  revert n m. induction s as [|c s IH]; intros n m H; simpl in H.
  - assert (n = 0%nat) by lia. assert (m = 0%nat) by lia. subst. reflexivity.
  - destruct n as [|n]; destruct m as [|m]; simpl; try reflexivity.
    + rewrite IH by lia. reflexivity.
    + apply IH. lia.
    + apply IH. lia.
Qed.

Lemma py_slice_length (s : string) (b e : Z) :
  0 <= b <= e -> e <= Z.of_nat (String.length s) ->
  Z.of_nat (String.length (py_slice s b e)) = e - b.
Proof.
  intros Hb He. unfold py_slice.
  destruct (Z.ltb_spec b 0) as [?|_]; [lia|].
  destruct (Z.ltb_spec e 0) as [?|_]; [lia|].
  rewrite substring_length by lia. lia.
Qed.

Lemma emit_ranges_writes (opts : options) (libID : string) (ctgID : Z) (seq : string)
  (ranges : list window) (shredID : Z) (fw : stream) :
  emit_ranges SeqIO_write_fasta opts libID ctgID seq shredID ranges fw =
  (Ok tt, fw ++ fragment_texts SeqIO_write_fasta (opt_fasta opts) libID ctgID seq
                  shredID ranges).
Proof.
  revert shredID fw. induction ranges as [|[b e] rest IH]; intros shredID fw.
  - simpl. unfold io_ret. rewrite app_nil_r. reflexivity.
  - cbn [emit_ranges fragment_texts]. unfold io_bind at 1. unfold io_lift.
    rewrite format_fragID. cbn [py_str]. fold (fragment_id libID ctgID shredID b e).
    unfold io_bind. unfold fragment_text. cbn [fst snd].
    destruct (opt_fasta opts).
    + unfold emitFragment, fw_write. rewrite IH, <- app_assoc. reflexivity.
    + rewrite emitFragment_structured, IH, <- app_assoc. reflexivity.
Qed.

Lemma fragment_texts_length (fasta : bool) (libID : string) (ctgID : Z) (seq : string)
  (ranges : list window) (shredID : Z) :
  List.length (fragment_texts SeqIO_write_fasta fasta libID ctgID seq shredID ranges) =
  List.length ranges.
Proof.
  revert shredID. induction ranges as [|w rest IH]; intros shredID; simpl;
    [reflexivity | rewrite IH; reflexivity].
Qed.

Lemma shred_contig_short (opts : options) (libID : string) (ctgID : Z)
  (rec : string * string) (fw : stream) :
  Z.of_nat (String.length (snd rec)) < opt_minctglen opts ->
  shred_contig SeqIO_write_fasta opts libID ctgID rec fw = (Ok tt, fw).
Proof.
  intros H. unfold shred_contig. apply Z.ltb_lt in H. rewrite H. reflexivity.
Qed.

Lemma shred_contigs_all_short (opts : options) (libID : string)
  (f : list (string * string)) (ctgID : Z) (fw : stream) :
  Forall (fun rec => Z.of_nat (String.length (snd rec)) < opt_minctglen opts) f ->
  shred_contigs SeqIO_write_fasta opts libID ctgID f fw = (Ok tt, fw).
Proof.
  intros H. revert ctgID. induction H as [|rec rest Hrec _ IH]; intros ctgID.
  - reflexivity.
  - simpl. unfold io_bind. rewrite (shred_contig_short _ _ _ _ _ Hrec). apply IH.
Qed.

Lemma shred_stream_split (opts : options) (libID : string)
  (pre post : list (string * string)) (fw : stream) :
  shred_stream SeqIO_write_fasta opts libID (pre ++ post) fw =
  io_bind (shred_stream SeqIO_write_fasta opts libID pre)
    (fun _ => shred_contigs SeqIO_write_fasta opts libID (Z.of_nat (List.length pre)) post)
    fw.
Proof.
  unfold shred_stream.
  match goal with |- io_bind ?h _ _ = _ => generalize h end.
  intros h. unfold io_bind. destruct (h fw) as [[[]|e] fw1]; [|reflexivity].
  rewrite shred_contigs_app. reflexivity.
Qed.

End MoreEmission.

(** X4: for a contig that is not skipped, [shred] writes exactly one text
    per planned window, in window order: the text of window [k = (begin,
    end)] carries the slice [seq[begin:end]] under the identifier
    [libID.ctgID.frag<k>.<begin>-<end>].  If planning raises, nothing is
    written for the contig. *)
Theorem contig_writes_one_text_per_window
  (SeqIO_write_fasta : string -> string -> string) (opts : options)
  (libID name seq : string) (ctgID : Z) (fw : stream) :
  opt_minctglen opts <= Z.of_nat (String.length seq) ->
  shred_contig SeqIO_write_fasta opts libID ctgID (name, seq) fw =
  match plan_windows (Z.of_nat (String.length seq)) (opt_readlen opts) (opt_depth opts) with
  | Ok ranges =>
    (Ok tt, fw ++ fragment_texts SeqIO_write_fasta (opt_fasta opts) libID ctgID seq 0 ranges)
  | Raise e => (Raise e, fw)
  end /\
  forall ranges,
    List.length (fragment_texts SeqIO_write_fasta (opt_fasta opts) libID ctgID seq 0 ranges) =
    List.length ranges.
Proof.
  intros Hlen. split; [|intros; apply fragment_texts_length].
  unfold shred_contig. cbn [snd].
  destruct (Z.ltb_spec (Z.of_nat (String.length seq)) (opt_minctglen opts)); [lia|].
  unfold io_bind, io_lift. destruct (plan_windows _ _ _) as [ranges|e]; [|reflexivity].
  apply emit_ranges_writes.
Qed.

Lemma contig_writes_one_text_per_window_witness :
  let W := fun id s => (">" ++ id ++ nl ++ s ++ nl)%string in
  let seq := str_mul "ACGTACGTAC"%string 16 in
  shred_contig W default_options "lib"%string 3 ("c"%string, seq) [] =
  match plan_windows (Z.of_nat (String.length seq)) (opt_readlen default_options)
          (opt_depth default_options) with
  | Ok ranges =>
    (Ok tt, [] ++ fragment_texts W (opt_fasta default_options) "lib"%string 3 seq 0 ranges)
  | Raise e => (Raise e, [])
  end /\
  forall ranges,
    List.length (fragment_texts W (opt_fasta default_options) "lib"%string 3 seq 0 ranges) =
    List.length ranges.
Proof.
  apply (contig_writes_one_text_per_window
           (fun id s => (">" ++ id ++ nl ++ s ++ nl)%string) default_options
           "lib"%string "c"%string (str_mul "ACGTACGTAC"%string 16) 3 []).
  vm_compute. congruence.
Defined.

(** X5: in structured mode the record of a window lying inside the
    sequence holds [end - begin] residues and as many quality characters,
    and its clear range is [0,<end - begin>]: the length in [clr:] agrees
    with the positions in the fragment identifier. *)
Theorem fragment_record_of_window
  (SeqIO_write_fasta : string -> string -> string) (opts : options)
  (libID seq : string) (ctgID shredID begin_ end_ : Z) (fw : stream) :
  opt_fasta opts = false ->
  0 <= begin_ <= end_ -> end_ <= Z.of_nat (String.length seq) ->
  Z.of_nat (String.length (py_slice seq begin_ end_)) = end_ - begin_ /\
  emit_ranges SeqIO_write_fasta opts libID ctgID seq shredID [(begin_, end_)] fw =
  (Ok tt,
   fw ++ [frg_record (fragment_id libID ctgID shredID begin_ end_) libID
            (py_slice seq begin_ end_)
            (str_mul DEFAULTQV (Z.to_nat (end_ - begin_)))
            ("0,"%string ++ str_of_int (end_ - begin_))]).
Proof.
  intros Hf Hb He. pose proof (py_slice_length seq begin_ end_ Hb He) as Hlen.
  split; [exact Hlen|]. rewrite emit_ranges_writes, Hf. cbn [fragment_texts].
  unfold fragment_text. cbn [fst snd]. rewrite Hlen, <- Hlen, Nat2Z.id. reflexivity.
Qed.

Lemma fragment_record_of_window_witness :
  Z.of_nat (String.length (py_slice "ACGTACGTAC"%string 2 6)) = 6 - 2 /\
  emit_ranges (fun id s => (">" ++ id ++ nl ++ s ++ nl)%string) default_options
    "lib"%string 0 "ACGTACGTAC"%string 1 [(2, 6)] [] =
  (Ok tt,
   [] ++ [frg_record (fragment_id "lib"%string 0 1 2 6) "lib"%string (py_slice "ACGTACGTAC"%string 2 6)
            (str_mul DEFAULTQV (Z.to_nat (6 - 2))) ("0,"%string ++ str_of_int (6 - 2))]).
Proof.
  apply (fragment_record_of_window (fun id s => (">" ++ id ++ nl ++ s ++ nl)%string)
           default_options "lib"%string "ACGTACGTAC"%string 0 1 2 6 []);
    first [reflexivity | simpl; lia].
Defined.

(** X6: when no sequence reaches the minimum contig length (an empty
    FASTA file included), a structured run writes the library header and
    nothing else, and a plain run writes nothing. *)
Theorem no_long_contig_header_only
  (SeqIO_write_fasta : string -> string -> string) (opts : options)
  (libID : string) (f : list (string * string)) :
  Forall (fun rec => Z.of_nat (String.length (snd rec)) < opt_minctglen opts) f ->
  shred_stream SeqIO_write_fasta opts libID f [] =
  (Ok tt, if opt_fasta opts then [] else [lib_record libID]).
Proof.
  intros H. unfold shred_stream. destruct (opt_fasta opts); simpl negb; cbv iota.
  - unfold io_bind, io_ret. apply shred_contigs_all_short, H.
  - unfold io_bind at 1. unfold io_bind at 1. unfold io_lift.
    rewrite format_headerTemplate. unfold print_to, fw_write.
    rewrite (shred_contigs_all_short _ _ _ _ _ _ H). reflexivity.
Qed.

Lemma no_long_contig_header_only_witness :
  shred_stream (fun id s => (">" ++ id ++ nl ++ s ++ nl)%string) default_options "lib"%string
    [("c1"%string, "ACGT"%string); ("c2"%string, str_mul "ACGTACGTAC"%string 14)]%string [] =
  (Ok tt, if opt_fasta default_options then [] else [lib_record "lib"%string]).
Proof.
  apply (no_long_contig_header_only (fun id s => (">" ++ id ++ nl ++ s ++ nl)%string)
           default_options "lib"%string [("c1"%string, "ACGT"%string); ("c2"%string, str_mul "ACGTACGTAC"%string 14)]%string).
  repeat constructor.
Defined.

(** X7: an exception raised while a contig is planned (a zero effective
    read length divides by zero) ends the run at that contig: the output
    file is left holding what was written before it, the library header
    and the fragments of the earlier contigs, and nothing of the later
    ones. *)
Theorem exception_leaves_partial_output
  (SeqIO_write_fasta : string -> string -> string) (opts : options)
  (fs : filesystem) (fastafile name seq : string)
  (pre post : list (string * string)) (out : stream) (e : exn) :
  fs_exists fs (output_path opts (split_head "." fastafile)) = false ->
  shred_stream SeqIO_write_fasta opts (split_head "." fastafile) pre [] = (Ok tt, out) ->
  opt_minctglen opts <= Z.of_nat (String.length seq) ->
  plan_windows (Z.of_nat (String.length seq)) (opt_readlen opts) (opt_depth opts) = Raise e ->
  shred SeqIO_write_fasta opts fs fastafile (pre ++ (name, seq) :: post) =
  (Raise e, fs_store fs (output_path opts (split_head "." fastafile)) out).
Proof.
  intros Hfs Hpre Hlen Hraise. rewrite (shred_fresh _ _ _ _ _ Hfs).
  rewrite shred_stream_split. unfold io_bind at 1 2. rewrite Hpre.
  cbn [shred_contigs]. unfold io_bind at 1 2.
  assert (Hc : shred_contig SeqIO_write_fasta opts (split_head "." fastafile)
                 (Z.of_nat (List.length pre)) (name, seq) out = (Raise e, out)).
  { unfold shred_contig. cbn [snd].
    destruct (Z.ltb_spec (Z.of_nat (String.length seq)) (opt_minctglen opts)); [lia|].
    unfold io_bind, io_lift. rewrite Hraise. reflexivity. }
  rewrite Hc. reflexivity.
Qed.

Lemma exception_leaves_partial_output_witness :
  let W := fun id s => (">" ++ id ++ nl ++ s ++ nl)%string in
  let opts := {| opt_depth := 2; opt_readlen := 1000; opt_minctglen := 50;
                 opt_fasta := false |} in
  shred W opts [] "lib.fasta"%string
    ([("c0"%string, "ACGT"%string)] ++
     ("c1"%string, str_mul "ACGTACGTAC"%string 5) ::
     [("c2"%string, str_mul "ACGTACGTAC"%string 16)])%list =
  (Raise ZeroDivisionError,
   fs_store [] (output_path opts (split_head "." "lib.fasta"%string)) [lib_record "lib"%string]).
Proof.
  apply (exception_leaves_partial_output
           (fun id s => (">" ++ id ++ nl ++ s ++ nl)%string)
           {| opt_depth := 2; opt_readlen := 1000; opt_minctglen := 50; opt_fasta := false |}
           [] "lib.fasta"%string "c1"%string (str_mul "ACGTACGTAC"%string 5)
           [("c0"%string, "ACGT"%string)]%string [("c2"%string, str_mul "ACGTACGTAC"%string 16)]%string
           [lib_record "lib"%string] ZeroDivisionError); vm_compute; congruence.
Defined.

(* ================================================================== *)
(** * The other commands *)
(* ================================================================== *)

(** ** Statements that print *)

Lemma cmd_for_app {X S : Type} (body : X -> S -> Cmd S) (xs ys : list X) (st : S)
  (out : stream) :
  cmd_for body (xs ++ ys) st out =
  cmd_bind (cmd_for body xs st) (fun st' => cmd_for body ys st') out.
Proof.
  revert st out. induction xs as [|x xs IH]; intros st out; simpl.
  - reflexivity.
  - unfold cmd_bind. destruct (body x st out) as [[st1|e] out1]; [|reflexivity].
    rewrite IH. reflexivity.
Qed.

(** ** [script] *)

Section ScriptFacts.

Variable py_int : string -> result Z.

Local Open Scope string_scope.

Lemma format_mate_line (a b : pyval) :
  format "frg iid {0} mateiid {1}" [a; b] [] =
  Ok ("frg iid " ++ py_str a ++ " mateiid " ++ py_str b).
Proof.
  rewrite <- (append_nil_r (py_str b)). vm_compute. reflexivity.
Qed.

Lemma format_lib_line (i : pyval) :
  format "lib iid {0} allfragsunmated 1" [i] [] =
  Ok ("lib iid " ++ py_str i ++ " allfragsunmated 1").
Proof. vm_compute. reflexivity. Qed.

Lemma print_mate_line (a b : Z) (out : stream) :
  cmd_print ("frg iid " ++ str_of_int a ++ " mateiid " ++ str_of_int b) out =
  (Return tt, (out ++ [mate_line a b])%list).
Proof.
  unfold cmd_print, mate_line. rewrite !append_assoc. reflexivity.
Qed.

Local Close Scope string_scope.

(** What a row does when it raises nothing: the difference between the sum
    of the four counters and [total] is kept, [total] grows by one, and
    either nothing is printed or the two lines of one mate pair are. *)
Lemma script_row_inv (row : string) (t t' : tally) (out out' : stream) :
  script_row py_int row t out = (Return t', out') ->
  tally_sum t' - total t' = tally_sum t - total t /\
  total t' = total t + 1 /\
  ((out' = out /\ mp t' = mp t) \/
   (exists a, out' = out ++ mate_lines a /\ mp t' = mp t + 1)).
Proof.
  unfold script_row.
  destruct (py_split row) as [|frgiid [|bfs [|rfs [|x l]]]];
    try (unfold cmd_throw; discriminate).
  destruct (negb (mem_str bfs not_found)), (negb (mem_str rfs not_found));
    cbn [andb negb]; unfold cmd_bind, cmd_ret, cmd_lift.
  - intros H. inversion H; subst; clear H. unfold tally_sum. simpl.
    repeat split; try lia. left. split; reflexivity.
  - intros H. inversion H; subst; clear H. unfold tally_sum. simpl.
    repeat split; try lia. left. split; reflexivity.
  - destruct (py_int frgiid) as [a|e]; cbn [of_result]; [|discriminate].
    rewrite !format_mate_line. cbn [of_result py_str]. rewrite !print_mate_line.
    intros H. inversion H; subst; clear H. unfold tally_sum. simpl.
    repeat split; try lia. right. exists a. split; [|reflexivity].
    unfold mate_lines. rewrite <- app_assoc. reflexivity.
  - intros H. inversion H; subst; clear H. unfold tally_sum. simpl.
    repeat split; try lia. left. split; reflexivity.
Qed.

Lemma script_rows_inv (rows : list string) (t t' : tally) (out out' : stream) :
  cmd_for (script_row py_int) rows t out = (Return t', out') ->
  tally_sum t' - total t' = tally_sum t - total t /\
  total t' = total t + Z.of_nat (List.length rows) /\
  exists mates, out' = out ++ flat_map mate_lines mates /\
                mp t' = mp t + Z.of_nat (List.length mates).
Proof.
  revert t out. induction rows as [|row rest IH]; intros t out H; simpl in H.
  - unfold cmd_ret in H. inversion H; subst.
    split; [lia|]. split; [simpl; lia|].
    exists []. simpl. rewrite app_nil_r. split; [reflexivity | lia].
  - unfold cmd_bind in H.
    destruct (script_row py_int row t out) as [[t1|e] out1] eqn:E; [|discriminate].
    destruct (script_row_inv _ _ _ _ _ E) as (S1 & T1 & P1).
    destruct (IH _ _ H) as (S2 & T2 & mates & O2 & M2).
    split; [lia|]. split; [simpl List.length; lia|].
    destruct P1 as [[-> M1]|(a & -> & M1)].
    + exists mates. split; [exact O2 | lia].
    + exists (a :: mates). split.
      * rewrite O2. simpl flat_map. rewrite <- app_assoc. reflexivity.
      * simpl List.length. lia.
Qed.

Lemma script_row_throw (row : string) (t : tally) (e : pyexn) (out out' : stream) :
  script_row py_int row t out = (Throw e, out') -> exists b, e = Builtin b.
Proof.
  unfold script_row.
  destruct (py_split row) as [|frgiid [|bfs [|rfs [|x l]]]];
    try (unfold cmd_throw; intros H; inversion H; eexists; reflexivity).
  destruct (negb (mem_str bfs not_found)), (negb (mem_str rfs not_found));
    cbn [andb negb]; unfold cmd_bind, cmd_ret, cmd_lift; try discriminate.
  destruct (py_int frgiid) as [a|b]; cbn [of_result].
  - rewrite !format_mate_line. cbn [of_result py_str]. rewrite !print_mate_line.
    discriminate.
  - intros H. inversion H. eexists. reflexivity.
Qed.

Lemma script_rows_throw (rows : list string) (t : tally) (e : pyexn) (out out' : stream) :
  cmd_for (script_row py_int) rows t out = (Throw e, out') -> exists b, e = Builtin b.
Proof.
  revert t out. induction rows as [|row rest IH]; intros t out H; simpl in H.
  - discriminate.
  - unfold cmd_bind in H.
    destruct (script_row py_int row t out) as [[t1|e1] out1] eqn:E.
    + apply (IH _ _ H).
    + inversion H; subst. apply (script_row_throw _ _ _ _ _ E).
Qed.

Lemma print_libs (ids : list Z) (out : stream) :
  cmd_for (fun i (_ : unit) =>
             run! l := cmd_lift (format "lib iid {0} allfragsunmated 1" [PInt i] []) in
             cmd_print l) ids tt out =
  (Return tt, out ++ map lib_line ids).
Proof.
  revert out. induction ids as [|i rest IH]; intros out; simpl.
  - unfold cmd_ret. rewrite app_nil_r. reflexivity.
  - unfold cmd_bind at 1. unfold cmd_bind at 1. unfold cmd_lift.
    rewrite format_lib_line. cbn [of_result py_str]. unfold cmd_print at 1.
    rewrite IH, <- app_assoc. unfold lib_line. simpl app.
    rewrite !append_assoc. reflexivity.
Qed.

(** What a row prints: the two lines of a mate pair when RFS found it and
    BFS did not, the fragment being [int] of its first field; else nothing. *)
Lemma script_row_mates (row : string) (t t' : tally) (out out' : stream) :
  script_row py_int row t out = (Return t', out') ->
  match rfs_only row with
  | Some frgiid =>
    exists a, py_int frgiid = Ok a /\ out' = out ++ mate_lines a /\ mp t' = mp t + 1
  | None => out' = out /\ mp t' = mp t
  end.
Proof.
  unfold script_row, rfs_only.
  destruct (py_split row) as [|frgiid [|bfs [|rfs [|x l]]]];
    try (unfold cmd_throw; discriminate).
  destruct (mem_str bfs not_found), (mem_str rfs not_found);
    cbn [andb negb]; unfold cmd_bind, cmd_ret, cmd_lift;
    try (intros H; inversion H; subst; clear H; simpl; split; reflexivity).
  destruct (py_int frgiid) as [a|e]; cbn [of_result]; [|discriminate].
  rewrite !format_mate_line. cbn [of_result py_str]. rewrite !print_mate_line.
  intros H. inversion H; subst; clear H. exists a.
  split; [reflexivity|]. split; [|reflexivity].
  unfold mate_lines. rewrite <- app_assoc. reflexivity.
Qed.

Lemma script_rows_mates (rows : list string) (t t' : tally) (out out' : stream) :
  cmd_for (script_row py_int) rows t out = (Return t', out') ->
  exists mates, ints_of py_int (rfs_only_frags rows) = Ok mates /\
                out' = out ++ flat_map mate_lines mates /\
                mp t' = mp t + Z.of_nat (List.length mates).
Proof.
  revert t out. induction rows as [|row rest IH]; intros t out H; simpl in H.
  - unfold cmd_ret in H. inversion H; subst.
    exists []. simpl. rewrite app_nil_r. split; [reflexivity|]. split; [reflexivity | lia].
  - unfold cmd_bind in H.
    destruct (script_row py_int row t out) as [[t1|e] out1] eqn:E; [|discriminate].
    apply script_row_mates in E. destruct (IH _ _ H) as (mates & I2 & O2 & M2).
    cbn [rfs_only_frags]. destruct (rfs_only row) as [frgiid|].
    + destruct E as (a & Ia & -> & M1). exists (a :: mates).
      cbn [ints_of]. rewrite Ia. cbn [rbind]. rewrite I2. cbn [rbind].
      split; [reflexivity|]. split.
      * rewrite O2. simpl flat_map. rewrite <- app_assoc. reflexivity.
      * simpl List.length. lia.
    + destruct E as [-> M1]. exists mates. split; [exact I2|]. split; [exact O2 | lia].
Qed.

Lemma script_mates (libs : string) (rows : list string) (t : tally) (out out' : stream) :
  script py_int libs rows out = (Return t, out') ->
  exists ids mates,
    ints_of py_int (py_split_on "," libs) = Ok ids /\
    ints_of py_int (rfs_only_frags rows) = Ok mates /\
    out' = out ++ map lib_line ids ++ flat_map mate_lines mates /\
    mp t = Z.of_nat (List.length mates).
Proof.
  unfold script. unfold cmd_bind at 1. unfold cmd_lift.
  destruct (ints_of py_int (py_split_on _ _)) as [ids|e]; cbn [of_result]; [|discriminate].
  unfold cmd_bind at 1. rewrite print_libs. unfold cmd_bind.
  destruct (cmd_for (script_row py_int) rows _ _) as [[t1|e] out1] eqn:E; [|discriminate].
  destruct (script_rows_mates _ _ _ _ _ E) as (mates & I1 & O1 & M1).
  simpl in M1.
  destruct (negb _); unfold cmd_throw, cmd_ret; intros H; inversion H; subst.
  exists ids, mates. rewrite <- app_assoc.
  split; [reflexivity|]. split; [exact I1|]. split; [reflexivity | lia].
Qed.

(** The run, cut into its steps. *)
Lemma script_inv (libs : string) (rows : list string) (t : tally) (out out' : stream) :
  script py_int libs rows out = (Return t, out') ->
  exists ids mates,
    ints_of py_int (py_split_on "," libs) = Ok ids /\
    out' = out ++ map lib_line ids ++ flat_map mate_lines mates /\
    mp t = Z.of_nat (List.length mates) /\
    tally_sum t = total t /\
    total t = Z.of_nat (List.length rows).
Proof.
  unfold script. unfold cmd_bind at 1. unfold cmd_lift.
  destruct (ints_of py_int _) as [ids|e]; cbn [of_result]; [|discriminate].
  unfold cmd_bind at 1. rewrite print_libs. unfold cmd_bind.
  destruct (cmd_for (script_row py_int) rows _ _) as [[t1|e] out1] eqn:E; [|discriminate].
  destruct (script_rows_inv _ _ _ _ _ E) as (S1 & T1 & mates & O1 & M1).
  unfold tally_sum in S1. simpl in S1, T1, M1.
  destruct (Z.eqb_spec (pe t1 + mp t1 + both t1 + noidea t1) (total t1)) as [Es|Ns];
    cbn [negb]; unfold cmd_throw, cmd_ret; intros H; inversion H; subst.
  exists ids, mates. rewrite <- app_assoc. unfold tally_sum.
  repeat split; try reflexivity; lia.
Qed.

End ScriptFacts.

(** X8: the assertion of [script] never fails: every row adds one to
    exactly one of the four counters, so when the rows are read the
    counters sum to [total], the number of rows. *)
Theorem script_counts_partition_rows (py_int : string -> result Z)
  (libs : string) (rows : list string) (out : stream) :
  fst (script py_int libs rows out) <> Throw AssertionError /\
  forall t, fst (script py_int libs rows out) = Return t ->
            pe t + mp t + both t + noidea t = total t /\
            total t = Z.of_nat (List.length rows).
Proof.
  split.
  - unfold script. unfold cmd_bind at 1. unfold cmd_lift.
    destruct (ints_of py_int _) as [ids|e]; cbn [of_result]; [|simpl; discriminate].
    unfold cmd_bind at 1. rewrite print_libs. unfold cmd_bind.
    destruct (cmd_for (script_row py_int) rows _ _) as [[t1|e] out1] eqn:E.
    2: { destruct (script_rows_throw _ _ _ _ _ _ E) as [b ->]. simpl. discriminate. }
    destruct (script_rows_inv _ _ _ _ _ _ E) as (S1 & _).
    unfold tally_sum in S1. simpl in S1.
    destruct (Z.eqb_spec (pe t1 + mp t1 + both t1 + noidea t1) (total t1)) as [Es|Ns];
      cbn [negb]; [simpl; discriminate | lia].
  - intros t Ht. destruct (script py_int libs rows out) as [r out'] eqn:E.
    simpl in Ht. subst r.
    destruct (script_inv _ _ _ _ _ _ E) as (ids & mates & _ & _ & _ & S & T).
    split; [exact S | exact T].
Qed.

(** X9: what [script] prints when it ends normally: one [lib iid] line for
    each library of the list, in order, then, for each row that RFS found
    and BFS did not, in the order of the rows, the two lines that mate the
    fragment [a = int(frgiid)] of the row with [a + 1], the one the mirror
    of the other; the number of these rows is the MP count. *)
Theorem script_prints_libs_then_mate_pairs (py_int : string -> result Z)
  (libs : string) (rows : list string) (t : tally) (out out' : stream) :
  script py_int libs rows out = (Return t, out') ->
  exists ids mates,
    ints_of py_int (py_split_on "," libs) = Ok ids /\
    ints_of py_int (rfs_only_frags rows) = Ok mates /\
    out' = out ++ map lib_line ids ++
           flat_map (fun a => [mate_line a (a + 1); mate_line (a + 1) a]) mates /\
    Z.of_nat (List.length mates) = mp t.
Proof.
  intros H. destruct (script_mates _ _ _ _ _ _ H) as (ids & mates & I & R & O & M).
  exists ids, mates. split; [exact I|]. split; [exact R|].
  split; [exact O | symmetry; exact M].
Qed.

Lemma script_prints_libs_then_mate_pairs_witness :
  exists ids mates,
    ints_of int_of_decimal (py_split_on "," "9,10") = Ok ids /\
    ints_of int_of_decimal
      (rfs_only_frags ["1 limited found"; "3 a b"; "5 limited exhausted";
                       "7 x limited"; "12 exhausted y"]%string) = Ok mates /\
    [lib_line 9; lib_line 10; mate_line 1 2; mate_line 2 1;
     mate_line 12 13; mate_line 13 12] =
      [] ++ map lib_line ids ++
      flat_map (fun a => [mate_line a (a + 1); mate_line (a + 1) a]) mates /\
    Z.of_nat (List.length mates) = mp (Tally 1 2 1 1 5).
Proof.
  apply (script_prints_libs_then_mate_pairs int_of_decimal "9,10"
           ["1 limited found"; "3 a b"; "5 limited exhausted"; "7 x limited";
            "12 exhausted y"]%string
           (Tally 1 2 1 1 5) []).
  vm_compute. reflexivity.
Defined.

(** X10: [script] stops at the first row that does not split into three
    fields: it raises [ValueError], and what it printed for the rows before
    stays printed. *)
Theorem script_stops_at_malformed_row (py_int : string -> result Z)
  (libs : string) (pre post : list string) (bad : string) (t : tally)
  (out out' : stream) :
  script py_int libs pre out = (Return t, out') ->
  List.length (py_split bad) <> 3%nat ->
  script py_int libs (pre ++ bad :: post) out = (Throw (Builtin ValueError), out').
Proof.
  intros Hpre Hbad. unfold script in *. unfold cmd_bind at 1 in Hpre.
  unfold cmd_bind at 1. unfold cmd_lift in *.
  destruct (ints_of py_int _) as [ids|e]; cbn [of_result] in *; [|discriminate].
  unfold cmd_bind at 1 in Hpre. unfold cmd_bind at 1. rewrite print_libs in *.
  unfold cmd_bind at 1 in Hpre. unfold cmd_bind at 1.
  rewrite cmd_for_app. unfold cmd_bind at 1.
  destruct (cmd_for (script_row py_int) pre _ _) as [[t1|e] out1]; [|discriminate].
  assert (E : out1 = out').
  { destruct (negb _); unfold cmd_throw, cmd_ret in Hpre; inversion Hpre; reflexivity. }
  subst out1. simpl cmd_for. unfold cmd_bind at 1.
  assert (Hrow : script_row py_int bad t1 out' = (Throw (Builtin ValueError), out')).
  { unfold script_row.
    destruct (py_split bad) as [|a [|b [|c [|x l]]]]; try reflexivity.
    simpl in Hbad. lia. }
  rewrite Hrow. reflexivity.
Qed.

Lemma script_stops_at_malformed_row_witness :
  script int_of_decimal "9"
    (["1 limited found"%string] ++ "2 found"%string :: ["3 a b"%string])%list [] =
  (Throw (Builtin ValueError), [lib_line 9; mate_line 1 2; mate_line 2 1]).
Proof.
  apply (script_stops_at_malformed_row int_of_decimal "9" ["1 limited found"]%string
           ["3 a b"]%string "2 found" (Tally 0 1 0 0 1) []).
  - vm_compute. reflexivity.
  - vm_compute. congruence.
Defined.

(** ** Strings and files *)

Section StringFacts.

Local Open Scope string_scope.

Lemma has_char_app (c : ascii) (s t : string) :
  has_char c (s ++ t) = has_char c s || has_char c t.
Proof.
  induction s as [|a s IH]; simpl; [reflexivity | rewrite IH, orb_assoc; reflexivity].
Qed.

Lemma rsplit_head_none (c : ascii) (s : string) :
  has_char c s = false -> rsplit_head c s = s.
Proof.
  induction s as [|a s IH]; simpl; [reflexivity|].
  intros H. apply orb_false_iff in H. destruct H as [Ha Hs].
  rewrite Hs, Ha. reflexivity.
Qed.

Lemma rsplit_head_last (c : ascii) (s t : string) :
  has_char c t = false -> rsplit_head c (s ++ String c t) = s.
Proof.
  intros Ht. induction s as [|a s IH]; simpl.
  - rewrite Ht, Ascii.eqb_refl. reflexivity.
  - rewrite has_char_app. simpl. rewrite Ascii.eqb_refl, orb_true_r, IH. reflexivity.
Qed.

Lemma fs_exists_read (fs : filesystem) (p : string) :
  fs_exists fs p = true <-> fs_read fs p <> None.
Proof.
  induction fs as [|[q c] fs IH]; simpl.
  - split; [discriminate | congruence].
  - destruct (String.eqb q p); simpl; [split; [discriminate | reflexivity] | exact IH].
Qed.

Lemma fs_read_remove_other (fs : filesystem) (p q : string) :
  p <> q -> fs_read (fs_remove fs p) q = fs_read fs q.
Proof.
  intros N. induction fs as [|[r c] fs IH]; simpl; [reflexivity|].
  destruct (String.eqb_spec r p) as [->|Nr]; simpl.
  - destruct (String.eqb_spec p q) as [E|_]; [contradiction | exact IH].
  - destruct (String.eqb r q); [reflexivity | exact IH].
Qed.

Lemma fs_read_store_other (fs : filesystem) (p q : string) (fw : stream) :
  p <> q -> fs_read (fs_store fs p fw) q = fs_read fs q.
Proof.
  intros N. unfold fs_store. simpl.
  destruct (String.eqb_spec p q) as [E|_]; [contradiction|].
  apply fs_read_remove_other, N.
Qed.

Lemma fs_read_store_same (fs : filesystem) (p : string) (fw : stream) :
  fs_read (fs_store fs p fw) p = Some (String.concat "" fw).
Proof. unfold fs_store. simpl. rewrite String.eqb_refl. reflexivity. Qed.

End StringFacts.

(** ** [make_matepairs] *)

Section MatesFacts.

Variable SeqIO_parse_ids : string -> list string.

Local Open Scope string_scope.

Lemma format_mates (fwd rev : string) :
  format ("{0}" ++ tab ++ "{1}") [PStr fwd; PStr rev] [] = Ok (fwd ++ tab ++ rev).
Proof.
  rewrite <- (append_nil_r rev) at 2. vm_compute. reflexivity.
Qed.

Lemma write_mates_ok (pairs : list (string * string)) (fw : stream) :
  write_mates pairs fw = (Ok tt, (fw ++ map mates_line_of pairs)%list).
Proof.
  revert fw. induction pairs as [|[fwd rev] rest IH]; intros fw; simpl.
  - unfold io_ret. rewrite app_nil_r. reflexivity.
  - unfold io_bind at 1. unfold io_lift. rewrite format_mates.
    unfold io_bind. unfold print_to, fw_write. rewrite IH, <- app_assoc.
    unfold mates_line_of. simpl fst. simpl snd. rewrite !append_assoc. reflexivity.
Qed.

Lemma zip_self_spec (A : Type) (d : A) (n : nat) (l : list A) :
  (List.length l <= n)%nat ->
  List.length (zip_self l) = Nat.div2 (List.length l) /\
  forall k, (k < Nat.div2 (List.length l))%nat ->
            nth k (zip_self l) (d, d) = (nth (2 * k) l d, nth (2 * k + 1) l d).
Proof.
  revert l. induction n as [|n IH]; intros l Hl; destruct l as [|a [|b rest]];
    try (split; [reflexivity | intros k Hk; simpl in Hk; lia]);
    try (simpl in Hl; lia).
  destruct (IH rest ltac:(simpl in Hl; lia)) as [L N].
  split.
  - simpl. rewrite L. reflexivity.
  - intros k Hk. destruct k as [|k]; [reflexivity|].
    simpl List.length in Hk. simpl Nat.div2 in Hk.
    cbn [zip_self nth]. rewrite N by lia.
    replace (2 * S k)%nat with (S (S (2 * k))) by lia.
    replace (S (S (2 * k)) + 1)%nat with (S (S (2 * k + 1))) by lia.
    reflexivity.
Qed.

Lemma make_matepairs_fresh (fs : filesystem) (fastafile text : string) :
  fs_exists fs fastafile = true ->
  fs_exists fs (rsplit_head "." fastafile ++ ".mates") = false ->
  fs_read fs fastafile = Some text ->
  make_matepairs SeqIO_parse_ids fs fastafile =
  (Return (rsplit_head "." fastafile ++ ".mates"),
   fs_store fs (rsplit_head "." fastafile ++ ".mates")
     (map mates_line_of (zip_self (SeqIO_parse_ids text)))).
Proof.
  intros He Hm Hr. unfold make_matepairs. rewrite He, Hm, Hr. simpl negb. cbv iota.
  rewrite write_mates_ok. reflexivity.
Qed.

End MatesFacts.

(** X11: [make_matepairs] mates adjacent records: the file it writes has
    one line for every two records of the FASTA file, line [k] holding the
    identifiers of records [2k] and [2k+1] separated by a tab; a last
    record without a partner gets no line. *)
Theorem mates_pair_adjacent_records (SeqIO_parse_ids : string -> list string)
  (fs : filesystem) (fastafile text : string) :
  fs_exists fs fastafile = true ->
  fs_exists fs (rsplit_head "." fastafile ++ ".mates")%string = false ->
  fs_read fs fastafile = Some text ->
  exists lines,
    make_matepairs SeqIO_parse_ids fs fastafile =
      (Return (rsplit_head "." fastafile ++ ".mates")%string,
       fs_store fs (rsplit_head "." fastafile ++ ".mates")%string lines) /\
    List.length lines = Nat.div2 (List.length (SeqIO_parse_ids text)) /\
    forall k, (k < Nat.div2 (List.length (SeqIO_parse_ids text)))%nat ->
      nth k lines ""%string =
      (nth (2 * k) (SeqIO_parse_ids text) "" ++ tab ++
       nth (2 * k + 1) (SeqIO_parse_ids text) "" ++ nl)%string.
Proof.
  intros He Hm Hr. set (ids := SeqIO_parse_ids text).
  exists (map mates_line_of (zip_self ids)).
  destruct (zip_self_spec string ""%string (List.length ids) ids (le_n _)) as [L N].
  split; [apply make_matepairs_fresh; assumption|]. split.
  - rewrite length_map. exact L.
  - intros k Hk.
    rewrite (nth_indep _ ""%string (mates_line_of (""%string, ""%string)))
      by (rewrite length_map, L; exact Hk).
    rewrite map_nth, (N k Hk). reflexivity.
Qed.

Lemma mates_pair_adjacent_records_witness :
  exists lines,
    make_matepairs ids_of_words [("r.fasta", "a1 a2 b1 b2 c1")]%string "r.fasta" =
      (Return (rsplit_head "." "r.fasta" ++ ".mates")%string,
       fs_store [("r.fasta", "a1 a2 b1 b2 c1")]%string
         (rsplit_head "." "r.fasta" ++ ".mates")%string lines) /\
    List.length lines = Nat.div2 (List.length (ids_of_words "a1 a2 b1 b2 c1")) /\
    forall k, (k < Nat.div2 (List.length (ids_of_words "a1 a2 b1 b2 c1")))%nat ->
      nth k lines ""%string =
      (nth (2 * k) (ids_of_words "a1 a2 b1 b2 c1") "" ++ tab ++
       nth (2 * k + 1) (ids_of_words "a1 a2 b1 b2 c1") "" ++ nl)%string.
Proof.
  apply (mates_pair_adjacent_records ids_of_words [("r.fasta", "a1 a2 b1 b2 c1")]%string
           "r.fasta" "a1 a2 b1 b2 c1"); reflexivity.
Defined.

(** X12: [make_matepairs] leaves every file that exists as it is: it
    writes the mates file only when there is none, and touches no other
    file. *)
Theorem make_matepairs_keeps_existing_files (SeqIO_parse_ids : string -> list string)
  (fs : filesystem) (fastafile path : string) :
  fs_exists fs path = true ->
  fs_read (snd (make_matepairs SeqIO_parse_ids fs fastafile)) path = fs_read fs path.
Proof.
  intros Hp. unfold make_matepairs.
  destruct (fs_exists fs fastafile); simpl negb; cbv iota; [|reflexivity].
  destruct (fs_exists fs (rsplit_head "." fastafile ++ ".mates")%string) eqn:Hm;
    [reflexivity|].
  rewrite write_mates_ok. simpl snd.
  apply fs_read_store_other. intros E. subst path. congruence.
Qed.

Lemma make_matepairs_keeps_existing_files_witness :
  fs_read (snd (make_matepairs ids_of_words
                  [("r.mates", "old"); ("r.fasta", "a1 a2 b1 b2 c1")]%string "r.fasta"))
    "r.mates" =
  fs_read [("r.mates", "old"); ("r.fasta", "a1 a2 b1 b2 c1")]%string "r.mates".
Proof.
  apply (make_matepairs_keeps_existing_files ids_of_words
           [("r.mates", "old"); ("r.fasta", "a1 a2 b1 b2 c1")]%string "r.fasta" "r.mates").
  reflexivity.
Defined.

(** X13: the mates file is named after the FASTA file with its last
    extension replaced: [stem.ext] gives [stem.mates], whatever dots the
    stem holds; without a FASTA file the call fails its assertion. *)
Theorem mates_file_name (SeqIO_parse_ids : string -> list string)
  (fs : filesystem) (stem ext : string) :
  has_char "." ext = false ->
  fst (make_matepairs SeqIO_parse_ids fs (stem ++ "." ++ ext)%string) =
  if fs_exists fs (stem ++ "." ++ ext)%string
  then Return (stem ++ ".mates")%string
  else Throw AssertionError.
Proof.
  intros Hext. unfold make_matepairs.
  destruct (fs_exists fs (stem ++ "." ++ ext)%string); simpl negb; cbv iota;
    [|reflexivity].
  change (stem ++ "." ++ ext)%string with (stem ++ String "." ext)%string.
  rewrite (rsplit_head_last "." stem ext Hext).
  destruct (fs_exists fs (stem ++ ".mates")%string); [reflexivity|].
  rewrite write_mates_ok. reflexivity.
Qed.

Lemma mates_file_name_witness :
  fst (make_matepairs ids_of_words [("lib.v2.fasta", "a b")]%string
         ("lib.v2" ++ "." ++ "fasta")%string) =
  if fs_exists [("lib.v2.fasta", "a b")]%string ("lib.v2" ++ "." ++ "fasta")%string
  then Return ("lib.v2" ++ ".mates")%string
  else Throw AssertionError.
Proof.
  apply (mates_file_name ids_of_words [("lib.v2.fasta", "a b")]%string "lib.v2" "fasta").
  reflexivity.
Defined.

(** ** Dictionaries with string keys *)

Section DictFacts.

Variable V : Type.

Local Abbreviation get := (dict_get (V := V) String.eqb).
Local Abbreviation del := (dict_del (V := V) String.eqb).
Local Abbreviation set := (dict_set (V := V) String.eqb).

Lemma dict_get_del_same (k : string) (d : dict string V) : get k (del k d) = None.
Proof.
  induction d as [|[k' v] d IH]; simpl; [reflexivity|].
  destruct (String.eqb k k') eqn:E; [exact IH|]. simpl. rewrite E. exact IH.
Qed.

Lemma dict_get_del_other (k k' : string) (d : dict string V) :
  k <> k' -> get k' (del k d) = get k' d.
Proof.
  intros N. induction d as [|[k0 v] d IH]; simpl; [reflexivity|].
  destruct (String.eqb_spec k k0) as [->|N0]; simpl.
  - destruct (String.eqb_spec k' k0) as [E|_]; [congruence | exact IH].
  - destruct (String.eqb k' k0); [reflexivity | exact IH].
Qed.

Lemma dict_get_in (k : string) (d : dict string V) :
  get k d <> None <-> In k (map fst d).
Proof.
  induction d as [|[k0 v] d IH]; simpl.
  - split; [congruence | contradiction].
  - destruct (String.eqb_spec k k0) as [->|N].
    + split; [left; reflexivity | discriminate].
    + rewrite IH. split; [right; assumption | intros [E|H]; [congruence | exact H]].
Qed.


Lemma dict_del_incl (k : string) (d : dict string V) (x : string * V) :
  In x (del k d) -> In x d.
Proof.
  induction d as [|[k0 v0] d IH]; simpl; [contradiction|].
  destruct (String.eqb k k0); simpl; [right; apply IH; assumption|].
  intros [E|H]; [left; exact E | right; apply IH, H].
Qed.


Lemma dict_del_nodup (k : string) (d : dict string V) :
  NoDup (map fst d) -> NoDup (map fst (del k d)).
Proof.
  induction d as [|[k0 v0] d IH]; simpl; intros H; [constructor|].
  inversion H as [|? ? Hn Hd]; subst.
  destruct (String.eqb k k0); [apply IH, Hd|].
  simpl. constructor; [|apply IH, Hd].
  intros Hin. apply Hn. apply in_map_iff in Hin. destruct Hin as (x & Ex & Hx).
  apply in_map_iff. exists x. split; [exact Ex | apply (dict_del_incl k), Hx].
Qed.

Lemma dict_del_absent (k : string) (d : dict string V) :
  ~ In k (map fst d) -> del k d = d.
Proof.
  induction d as [|[k0 v0] d IH]; simpl; intros H; [reflexivity|].
  destruct (String.eqb_spec k k0) as [E|_]; [exfalso; apply H; left; congruence|].
  rewrite IH; [reflexivity | intros Hin; apply H; right; exact Hin].
Qed.

Lemma dict_del_length (k : string) (d : dict string V) :
  NoDup (map fst d) -> In k (map fst d) ->
  S (List.length (del k d)) = List.length d.
Proof.
  induction d as [|[k0 v0] d IH]; simpl; intros Hn Hin; [contradiction|].
  inversion Hn as [|? ? Hk Hd]; subst.
  destruct (String.eqb_spec k k0) as [->|N].
  - rewrite dict_del_absent by exact Hk. reflexivity.
  - simpl. rewrite IH; [reflexivity | exact Hd | destruct Hin; [congruence | assumption]].
Qed.



Lemma insert_item_length (kv : string * V) (xs : list (string * V)) :
  List.length (insert_item kv xs) = S (List.length xs).
Proof.
  induction xs as [|y ys IH]; simpl; [reflexivity|].
  destruct (String.leb _ _); simpl; [reflexivity | rewrite IH; reflexivity].
Qed.

Lemma sorted_items_length (d : list (string * V)) :
  List.length (sorted_items d) = List.length d.
Proof.
  induction d as [|kv rest IH]; simpl; [reflexivity|].
  rewrite insert_item_length, IH. reflexivity.
Qed.



End DictFacts.

(** ** [clr] *)

Section ClrFacts.

Variable range_minmax : list (Z * Z) -> Z * Z.

Lemma map_pair_id (hits : list (Z * Z)) : map (fun x => (fst x, snd x)) hits = hits.
Proof.
  induction hits as [|[a b] rest IH]; simpl; [reflexivity | rewrite IH; reflexivity].
Qed.

Lemma clr_hit_present (q : string) (hits : list (Z * Z)) (qsize : Z)
  (sizes : dict string Z) (out : stream) :
  dict_get String.eqb q sizes = Some qsize ->
  clr_hit range_minmax (q, hits) sizes out =
  (Return (dict_del String.eqb q sizes), out ++ [hit_line range_minmax sizes (q, hits)]).
Proof.
  intros H. unfold clr_hit, hit_line. simpl fst. simpl snd. rewrite H, map_pair_id.
  destruct (range_minmax hits) as [vmin vmax].
  destruct (clear_range qsize vmin vmax) as [s e].
  unfold cmd_bind, cmd_print, cmd_ret. reflexivity.
Qed.

Lemma clr_hit_absent (q : string) (hits : list (Z * Z)) (sizes : dict string Z)
  (out : stream) :
  dict_get String.eqb q sizes = None ->
  clr_hit range_minmax (q, hits) sizes out = (Throw (Builtin KeyError), out).
Proof. intros H. unfold clr_hit. rewrite H. reflexivity. Qed.

(** The loop over the hits ends normally exactly when the queries are
    distinct keys of [sizes]; it then removes them and prints a line for
    each; otherwise it raises [KeyError]. *)
Lemma clr_hits_loop (hits : list (string * list (Z * Z))) (sizes : dict string Z)
  (out : stream) :
  (NoDup (map fst hits) /\
   Forall (fun q => dict_get String.eqb q sizes <> None) (map fst hits) /\
   exists lines,
     List.length lines = List.length hits /\
     cmd_for (clr_hit range_minmax) hits sizes out =
     (Return (fold_left (fun d q => dict_del String.eqb q d) (map fst hits) sizes),
      out ++ lines)) \/
  (~ (NoDup (map fst hits) /\
      Forall (fun q => dict_get String.eqb q sizes <> None) (map fst hits)) /\
   fst (cmd_for (clr_hit range_minmax) hits sizes out) = Throw (Builtin KeyError)).
Proof.
  revert sizes out. induction hits as [|[q h] rest IH]; intros sizes out.
  - left. split; [constructor|]. split; [constructor|].
    exists []. simpl. unfold cmd_ret. rewrite app_nil_r. split; reflexivity.
  - cbn [map fst cmd_for]. unfold cmd_bind.
    destruct (dict_get String.eqb q sizes) as [qsize|] eqn:Eq.
    + rewrite (clr_hit_present _ _ _ _ _ Eq).
      destruct (IH (dict_del String.eqb q sizes) (out ++ [hit_line range_minmax sizes (q, h)]))
        as [(Hn & Hp & lines & Hl & Hrun)|(Hbad & Hthrow)].
      * left. split.
        { constructor; [|exact Hn]. intros Hin.
          rewrite Forall_forall in Hp. apply (Hp q Hin), dict_get_del_same. }
        split.
        { constructor; [congruence|]. rewrite Forall_forall in *. intros x Hx.
          specialize (Hp x Hx). destruct (String.eqb_spec q x) as [->|N].
          - rewrite dict_get_del_same in Hp. congruence.
          - rewrite dict_get_del_other in Hp by exact N. exact Hp. }
        exists (hit_line range_minmax sizes (q, h) :: lines). split; [simpl; lia|].
        rewrite Hrun, <- app_assoc. reflexivity.
      * right. split; [|exact Hthrow].
        intros [Hn Hp]. apply Hbad. inversion Hn as [|? ? Hq Hn']; subst.
        inversion Hp as [|? ? _ Hp']; subst. split; [exact Hn'|].
        rewrite Forall_forall in *. intros x Hx.
        rewrite dict_get_del_other; [apply Hp', Hx | intros ->; contradiction].
    + rewrite (clr_hit_absent _ _ _ _ Eq). right. split; [|reflexivity].
      intros [_ Hp]. inversion Hp; subst. congruence.
Qed.










Lemma print_rest (items : list (string * Z)) (out : stream) :
  cmd_for (fun kv (_ : unit) => cmd_print (clr_line (fst kv) 0 (snd kv))) items tt out =
  (Return tt, out ++ map (fun kv => (clr_line (fst kv) 0 (snd kv) ++ nl)%string) items).
Proof.
  revert out. induction items as [|kv rest IH]; intros out; simpl.
  - unfold cmd_ret. rewrite app_nil_r. reflexivity.
  - unfold cmd_bind, cmd_print. rewrite IH, <- app_assoc. reflexivity.
Qed.


Lemma fold_del_nodup (qs : list string) (d : dict string Z) :
  NoDup (map fst d) ->
  NoDup (map fst (fold_left (fun d q => dict_del String.eqb q d) qs d)).
Proof.
  revert d. induction qs as [|q rest IH]; intros d H; simpl;
    [exact H | apply IH, dict_del_nodup, H].
Qed.

Lemma fold_del_length (qs : list string) (d : dict string Z) :
  NoDup (map fst d) -> NoDup qs ->
  Forall (fun q => dict_get String.eqb q d <> None) qs ->
  (List.length (fold_left (fun d q => dict_del String.eqb q d) qs d) + List.length qs
   = List.length d)%nat.
Proof.
  revert d. induction qs as [|q rest IH]; intros d Hd Hn Hp; simpl; [lia|].
  inversion Hn as [|? ? Hq Hn']; subst. inversion Hp as [|? ? Hq' Hp']; subst.
  rewrite <- (dict_del_length Z q d Hd) by (apply dict_get_in, Hq').
  rewrite <- (IH (dict_del String.eqb q d)); [lia | apply dict_del_nodup, Hd | exact Hn' |].
  rewrite Forall_forall in *. intros x Hx.
  rewrite dict_get_del_other; [apply Hp', Hx | intros ->; contradiction].
Qed.


End ClrFacts.

Lemma clr_outcome (range_minmax : list (Z * Z) -> Z * Z)
  (fastas : list (list (string * Z))) (hits : list (string * list (Z * Z)))
  (out : stream) :
  (NoDup (map fst hits) /\
   Forall (fun q => dict_get String.eqb q (clr_sizes fastas) <> None) (map fst hits) /\
   exists lines,
     List.length lines = List.length hits /\
     clr range_minmax fastas hits out =
     (Return tt,
      out ++ lines ++
      map (fun kv => (clr_line (fst kv) 0 (snd kv) ++ nl)%string)
        (sorted_items (fold_left (fun d q => dict_del String.eqb q d) (map fst hits)
                         (clr_sizes fastas))))) \/
  (~ (NoDup (map fst hits) /\
      Forall (fun q => dict_get String.eqb q (clr_sizes fastas) <> None) (map fst hits)) /\
   fst (clr range_minmax fastas hits out) = Throw (Builtin KeyError)).
Proof.
  unfold clr.
  destruct (clr_hits_loop range_minmax hits (clr_sizes fastas) out)
    as [(Hn & Hp & lines & Hl & Hrun)|(Hbad & Hthrow)].
  - left. split; [exact Hn|]. split; [exact Hp|]. exists lines. split; [exact Hl|].
    unfold cmd_bind. rewrite Hrun, print_rest, <- app_assoc. reflexivity.
  - right. split; [exact Hbad|]. unfold cmd_bind.
    destruct (cmd_for (clr_hit range_minmax) hits (clr_sizes fastas) out) as [[d|e] o];
      simpl in *; [discriminate | congruence].
Qed.

(** X14: [clr] ends normally exactly when the queries of the BLAST hits
    are distinct names of sequences of the FASTA files; a query that is no
    sequence, or that comes a second time, raises [KeyError]. *)
Theorem clr_needs_distinct_known_queries (range_minmax : list (Z * Z) -> Z * Z)
  (fastas : list (list (string * Z))) (hits : list (string * list (Z * Z)))
  (out : stream) :
  (fst (clr range_minmax fastas hits out) = Return tt <->
   NoDup (map fst hits) /\
   Forall (fun q => dict_get String.eqb q (clr_sizes fastas) <> None) (map fst hits)) /\
  (fst (clr range_minmax fastas hits out) = Return tt \/
   fst (clr range_minmax fastas hits out) = Throw (Builtin KeyError)).
Proof.
  destruct (clr_outcome range_minmax fastas hits out)
    as [(Hn & Hp & lines & _ & Hrun)|(Hbad & Hthrow)].
  - rewrite Hrun. simpl. split; [|left; reflexivity].
    split; [intros _; split; assumption | reflexivity].
  - rewrite Hthrow. split; [|right; reflexivity].
    split; [discriminate | intros H; contradiction].
Qed.




(** X16: the clear range [clr] gives a sequence whose vector hits span
    [vmin .. vmax] inside it lies inside the sequence and is at least as
    long as the flank before the vector and as the flank after it: the
    longer flank is kept, the one after the vector on a tie. *)
Theorem clear_range_keeps_longer_flank (qsize vmin vmax : Z) :
  1 <= vmin -> vmin <= vmax -> vmax <= qsize ->
  0 <= fst (clear_range qsize vmin vmax) /\
  fst (clear_range qsize vmin vmax) <= snd (clear_range qsize vmin vmax) /\
  snd (clear_range qsize vmin vmax) <= qsize /\
  vmin - 1 <= snd (clear_range qsize vmin vmax) - fst (clear_range qsize vmin vmax) /\
  qsize - vmax <= snd (clear_range qsize vmin vmax) - fst (clear_range qsize vmin vmax) /\
  (vmin - 1 <= qsize - vmax -> clear_range qsize vmin vmax = (vmax, qsize)).
Proof.
  intros H1 H2 H3. unfold clear_range.
  destruct (Z.gtb_spec (vmin - 1) (qsize - vmax)); simpl;
    repeat split; first [lia | intros; reflexivity].
Qed.

Lemma clear_range_keeps_longer_flank_witness :
  0 <= fst (clear_range 200 20 40) /\
  fst (clear_range 200 20 40) <= snd (clear_range 200 20 40) /\
  snd (clear_range 200 20 40) <= 200 /\
  20 - 1 <= snd (clear_range 200 20 40) - fst (clear_range 200 20 40) /\
  200 - 40 <= snd (clear_range 200 20 40) - fst (clear_range 200 20 40) /\
  (20 - 1 <= 200 - 40 -> clear_range 200 20 40 = (40, 200)).
Proof.
  apply (clear_range_keeps_longer_flank 200 20 40); lia.
Defined.

(** *** variation/impute.py: [validate] *)

Section ValidateFacts.

Local Open Scope string_scope.

Lemma split_head_clean (c : ascii) (s : string) : has_char c (split_head c s) = false.
Proof.
  induction s as [|a s IH]; simpl; [reflexivity|].
  destruct (Ascii.eqb a c) eqn:E; simpl; [reflexivity|]. rewrite E. exact IH.
Qed.

Lemma split_head_absent (c d : ascii) (s : string) :
  has_char d s = false -> has_char d (split_head c s) = false.
Proof.
  induction s as [|a s IH]; simpl; [reflexivity|]. intros H.
  apply orb_false_iff in H. destruct H as [Ha Hs].
  destruct (Ascii.eqb a c); simpl; [reflexivity|]. rewrite Ha. apply IH, Hs.
Qed.

Lemma split_head_none (c : ascii) (s : string) :
  has_char c s = false -> split_head c s = s.
Proof.
  induction s as [|a s IH]; simpl; [reflexivity|]. intros H.
  apply orb_false_iff in H. destruct H as [Ha Hs]. rewrite Ha, IH; auto.
Qed.

Lemma split_head_app (c : ascii) (a s : string) :
  has_char c a = false -> split_head c (a ++ String c s) = a.
Proof.
  induction a as [|x a IH]; simpl.
  - intros _. rewrite Ascii.eqb_refl. reflexivity.
  - intros H. apply orb_false_iff in H. destruct H as [Hx Ha]. rewrite Hx, IH; auto.
Qed.

Lemma pieces_from_absent (c d : ascii) (s : string) :
  has_char d s = false ->
  has_char d (fst (pieces_from c s)) = false /\
  Forall (fun w => has_char d w = false) (snd (pieces_from c s)).
Proof.
  induction s as [|a s IH]; simpl; [intros _; split; [reflexivity | constructor]|].
  intros H. apply orb_false_iff in H. destruct H as [Ha Hs].
  destruct (IH Hs) as [Hw Hws]. destruct (pieces_from c s) as [w ws]. simpl in *.
  destruct (Ascii.eqb a c); simpl.
  - split; [reflexivity | constructor; assumption].
  - rewrite Ha. split; assumption.
Qed.

Lemma pieces_from_clean (c : ascii) (s : string) :
  has_char c (fst (pieces_from c s)) = false /\
  Forall (fun w => has_char c w = false) (snd (pieces_from c s)).
Proof.
  induction s as [|a s IH]; simpl; [split; [reflexivity | constructor]|].
  destruct IH as [Hw Hws]. destruct (pieces_from c s) as [w ws]. simpl in *.
  destruct (Ascii.eqb a c) eqn:E; simpl.
  - split; [reflexivity | constructor; assumption].
  - rewrite E. split; assumption.
Qed.

Lemma pieces_from_none (c : ascii) (a : string) :
  has_char c a = false -> pieces_from c a = (a, []).
Proof.
  induction a as [|x a IH]; simpl; [reflexivity|]. intros H.
  apply orb_false_iff in H. destruct H as [Hx Ha]. rewrite IH, Hx; auto.
Qed.

Lemma pieces_from_app (c : ascii) (a s : string) :
  has_char c a = false ->
  pieces_from c (a ++ String c s) =
  (a, fst (pieces_from c s) :: snd (pieces_from c s)).
Proof.
  induction a as [|x a IH]; simpl.
  - intros _. rewrite Ascii.eqb_refl. destruct (pieces_from c s); reflexivity.
  - intros H. apply orb_false_iff in H. destruct H as [Hx Ha].
    rewrite IH, Hx; auto.
Qed.

Lemma insert_sorted_Forall (P : string -> Prop) (x : string) (xs : list string) :
  P x -> Forall P xs -> Forall P (insert_sorted x xs).
Proof.
  intros Hx. induction 1 as [|y ys Hy Hys IH]; simpl; [repeat constructor; exact Hx|].
  destruct (String.leb x y); repeat constructor; assumption.
Qed.

Lemma py_sorted_Forall (P : string -> Prop) (xs : list string) :
  Forall P xs -> Forall P (py_sorted xs).
Proof.
  induction 1; simpl; [constructor | apply insert_sorted_Forall; assumption].
Qed.

Lemma has_char_concat (c : ascii) (sep : string) (l : list string) :
  has_char c sep = false ->
  Forall (fun w => has_char c w = false) l ->
  has_char c (String.concat sep l) = false.
Proof.
  intros Hsep. induction 1 as [|x xs Hx Hxs IH]; simpl; [reflexivity|].
  destruct xs as [|y ys]; [exact Hx|].
  rewrite !has_char_app, Hx, Hsep. exact IH.
Qed.

Lemma imputed_genotype_clean (genotype : string) :
  has_char "|" (imputed_genotype genotype) = false /\
  has_char ":" (imputed_genotype genotype) = false.
Proof.
  unfold imputed_genotype.
  pose proof (split_head_clean ":" genotype) as Hc.
  destruct (has_char "|" (split_head ":" genotype)) eqn:E; [|split; [exact E | exact Hc]].
  unfold py_split_on.
  pose proof (pieces_from_clean "|" (split_head ":" genotype)) as [H1 H2].
  pose proof (pieces_from_absent "|" ":" (split_head ":" genotype) Hc) as [H3 H4].
  destruct (pieces_from "|" (split_head ":" genotype)) as [w ws]. simpl in *.
  split; apply has_char_concat; try reflexivity;
    apply (py_sorted_Forall _ (w :: ws)); constructor; assumption.
Qed.

Lemma has_char_neq (c : ascii) (s t : string) :
  has_char c s = true -> has_char c t = false -> String.eqb s t = false.
Proof.
  intros Hs Ht. destruct (String.eqb_spec s t) as [->|]; [congruence | reflexivity].
Qed.

Lemma count_concordant_bounds (rows : list string)
  (register : dict (string * string) string) (st st' : Z * Z) :
  count_concordant rows register st = Return st' ->
  (0 <= snd st <= fst st)%Z ->
  (0 <= snd st' <= fst st')%Z /\
  (snd st <= snd st')%Z /\
  (fst st' - snd st' >= fst st - snd st)%Z /\
  (fst st' <= fst st + Z.of_nat (List.length rows))%Z.
Proof.
  revert st. induction rows as [|row rows IH]; intros st Hrun Hst.
  - simpl in Hrun. injection Hrun as <-. simpl. lia.
  - cbn [count_concordant] in Hrun.
    destruct (vcf_row row) as [[[key genotype]|]|e]; [| |discriminate].
    + destruct (dict_get key_eqb key register) as [truth|].
      * apply IH in Hrun.
        -- cbn [fst snd] in Hrun. cbn [List.length].
           destruct (String.eqb truth (imputed_genotype genotype)); cbn [fst snd] in *; lia.
        -- cbn [fst snd]. destruct (String.eqb truth (imputed_genotype genotype)); lia.
      * apply IH in Hrun; [|exact Hst]. cbn [List.length]. lia.
    + apply IH in Hrun; [|exact Hst]. cbn [List.length]. lia.
Qed.

(** The genotypes of a register come from the rows read into it. *)
Lemma dict_del_values (K V : Type) (keq : K -> K -> bool) (P : V -> Prop)
  (k : K) (d : dict K V) :
  Forall (fun kv => P (snd kv)) d -> Forall (fun kv => P (snd kv)) (dict_del keq k d).
Proof.
  induction 1 as [|[k' v] d Hv Hd IH]; simpl; [constructor|].
  destruct (keq k k'); [exact IH | constructor; assumption].
Qed.

Lemma dict_get_value (K V : Type) (keq : K -> K -> bool) (P : V -> Prop)
  (k : K) (v : V) (d : dict K V) :
  Forall (fun kv => P (snd kv)) d -> dict_get keq k d = Some v -> P v.
Proof.
  induction 1 as [|[k' v'] d Hv Hd IH]; simpl; [discriminate|].
  destruct (keq k k'); [intros [= <-]; exact Hv | exact IH].
Qed.

Lemma read_register_values (P : string -> Prop) (rows : list string)
  (register register' : dict (string * string) string) :
  (forall row key genotype,
     In row rows -> vcf_row row = Return (Some (key, genotype)) -> P genotype) ->
  Forall (fun kv => P (snd kv)) register ->
  read_register rows register = Return register' ->
  Forall (fun kv => P (snd kv)) register'.
Proof.
  revert register. induction rows as [|row rows IH]; intros register Hrows Hreg Hrun.
  - simpl in Hrun. injection Hrun as <-. exact Hreg.
  - cbn [read_register] in Hrun.
    destruct (vcf_row row) as [[[key genotype]|]|e] eqn:E; [| |discriminate].
    + apply IH in Hrun; [exact Hrun | |].
      * intros r k g Hin. apply Hrows. right. exact Hin.
      * unfold dict_set. constructor.
        -- simpl. apply (Hrows row key genotype); [left; reflexivity | exact E].
        -- apply dict_del_values, Hreg.
    + apply IH in Hrun; [exact Hrun | | exact Hreg].
      intros r k g Hin. apply Hrows. right. exact Hin.
Qed.

Lemma count_concordant_none (rows : list string)
  (register : dict (string * string) string) (st st' : Z * Z) :
  Forall (fun kv => has_char "|" (snd kv) = true \/ has_char ":" (snd kv) = true) register ->
  count_concordant rows register st = Return st' ->
  snd st' = snd st.
Proof.
  intros Hreg. revert st. induction rows as [|row rows IH]; intros st Hrun.
  - simpl in Hrun. injection Hrun as <-. reflexivity.
  - cbn [count_concordant] in Hrun.
    destruct (vcf_row row) as [[[key genotype]|]|e]; [| |discriminate].
    + destruct (dict_get key_eqb key register) as [truth|] eqn:G; [|apply IH, Hrun].
      apply (dict_get_value _ _ _
               (fun v => has_char "|" v = true \/ has_char ":" v = true) _ _ _ Hreg) in G.
      destruct (imputed_genotype_clean genotype) as [Hbar Hcolon].
      assert (String.eqb truth (imputed_genotype genotype) = false) as Hne.
      { destruct G as [G|G]; [apply (has_char_neq "|") | apply (has_char_neq ":")];
          assumption. }
      rewrite Hne in Hrun. apply IH in Hrun. exact Hrun.
    + apply IH, Hrun.
Qed.

End ValidateFacts.

(** X17: the two numbers [validate] logs: the concordant positions are
    among the positions found in the withheld file, and these are among
    the rows of the imputed file. *)
Theorem validate_counts_bounded (imputed withheld : list string) (hit concordant : Z) :
  validate imputed withheld = Return (hit, concordant) ->
  0 <= concordant /\ concordant <= hit /\ hit <= Z.of_nat (List.length imputed).
Proof.
  unfold validate. intros Hrun.
  destruct (read_register withheld []) as [register|e]; [|discriminate].
  apply count_concordant_bounds in Hrun; simpl in *; lia.
Qed.

Lemma validate_counts_bounded_witness :
  0 <= 1 /\ 1 <= 2 /\
  2 <= Z.of_nat (List.length
         ["#h"; "1 10 . A C . . . GT 0|1:9"; "1 20 . A C . . . GT 1|1"; "2 5 . G T . . . GT 0/0"]%string).
Proof.
  apply (validate_counts_bounded
           ["#h"; "1 10 . A C . . . GT 0|1:9"; "1 20 . A C . . . GT 1|1"; "2 5 . G T . . . GT 0/0"]%string
           ["#h"; "1 10 . A C . . . GT 0/1"; "1 20 . A C . . . GT 0/1"]%string 2 1).
  vm_compute. reflexivity.
Defined.

(** X18: [validate] compares the whole genotype column of the withheld
    file with a genotype of the imputed file that is cut at its first
    colon and has its bars replaced by slashes.  So while every genotype
    of the withheld file has a bar or a colon, no position is counted as
    concordant. *)
Theorem validate_phased_truth_never_concordant (imputed withheld : list string)
  (hit concordant : Z) :
  validate imputed withheld = Return (hit, concordant) ->
  (forall row key genotype,
     In row withheld -> vcf_row row = Return (Some (key, genotype)) ->
     has_char "|" genotype = true \/ has_char ":" genotype = true) ->
  concordant = 0.
Proof.
  unfold validate. intros Hrun Hrows.
  destruct (read_register withheld []) as [register|e] eqn:R; [|discriminate].
  apply (read_register_values
           (fun g => has_char "|" g = true \/ has_char ":" g = true)) in R;
    [|exact Hrows | constructor].
  apply (count_concordant_none _ _ _ _ R) in Hrun. exact Hrun.
Qed.

Lemma validate_phased_truth_never_concordant_witness :
  validate ["1 10 . A C . . . GT 0|1"; "1 20 . A C . . . GT 1/1:35"]%string
           ["1 10 . A C . . . GT 0|1"; "1 20 . A C . . . GT 1/1:35"]%string = Return (2, 0) /\
  0 = 0.
Proof.
  split; [vm_compute; reflexivity|].
  apply (validate_phased_truth_never_concordant
           ["1 10 . A C . . . GT 0|1"; "1 20 . A C . . . GT 1/1:35"]%string
           ["1 10 . A C . . . GT 0|1"; "1 20 . A C . . . GT 1/1:35"]%string 2 0).
  - vm_compute. reflexivity.
  - intros row key genotype [<-|[<-|[]]]; vm_compute; intros [= <- <-];
      [left | right]; reflexivity.
Defined.

(** X19: the order of the two alleles of a phased genotype and the fields
    after its first colon do not matter to [validate]: [a|b:...] and
    [b|a:...] are both read as the two alleles in sorted order with a
    slash between them. *)
Theorem phased_alleles_order_ignored (a b r1 r2 : string) :
  has_char "|" a = false -> has_char ":" a = false ->
  has_char "|" b = false -> has_char ":" b = false ->
  String.leb a b = true ->
  imputed_genotype (a ++ "|" ++ b ++ ":" ++ r1) = (a ++ "/" ++ b)%string /\
  imputed_genotype (b ++ "|" ++ a ++ ":" ++ r2) = (a ++ "/" ++ b)%string.
Proof.
  intros Ha Ha' Hb Hb' Hle.
  assert (forall x y r, has_char "|" x = false -> has_char ":" x = false ->
            has_char "|" y = false -> has_char ":" y = false ->
            imputed_genotype (x ++ "|" ++ y ++ ":" ++ r) =
            String.concat "/" (py_sorted [x; y])) as Hgen.
  { intros x y r Hx Hx' Hy Hy'. unfold imputed_genotype.
    assert (split_head ":" (x ++ "|" ++ y ++ ":" ++ r) = (x ++ "|" ++ y)%string) as ->.
    { change (x ++ "|" ++ y ++ ":" ++ r)%string
        with (x ++ (String "|" y ++ String ":" r))%string.
      rewrite <- append_assoc. apply split_head_app.
      rewrite has_char_app. simpl. rewrite Hx', Hy'. reflexivity. }
    rewrite has_char_app. simpl has_char at 2. rewrite orb_true_r.
    unfold py_split_on.
    change (x ++ "|" ++ y)%string with (x ++ String "|" y)%string.
    rewrite (pieces_from_app "|" x y Hx), (pieces_from_none "|" y Hy). reflexivity. }
  rewrite !Hgen by assumption. simpl. rewrite Hle.
  destruct (String.leb b a) eqn:Hba; [|split; reflexivity].
  rewrite (String.leb_antisym _ _ Hle Hba). split; reflexivity.
Qed.

Lemma phased_alleles_order_ignored_witness :
  imputed_genotype ("0" ++ "|" ++ "1" ++ ":" ++ "0.9,0.1") = ("0" ++ "/" ++ "1")%string /\
  imputed_genotype ("1" ++ "|" ++ "0" ++ ":" ++ "") = ("0" ++ "/" ++ "1")%string.
Proof.
  apply (phased_alleles_order_ignored "0" "1" "0.9,0.1" ""); reflexivity.
Defined.

(** *** variation/impute.py: [get_phasing_cmd] and [impute] *)

Section ImputeFacts.

Local Open Scope string_scope.

Lemma format_rpf (chr : pyval) :
  format "1000GP_Phase3/1000GP_Phase3_chr{0}" [chr] [] =
  Ok ("1000GP_Phase3/1000GP_Phase3_chr" ++ py_str chr).
Proof. rewrite <- (append_nil_r (py_str chr)). vm_compute. reflexivity. Qed.

Lemma format_mapfile (chr : string) :
  format "1000GP_Phase3/genetic_map_chr{0}_combined_b37.txt" [PStr chr] [] =
  Ok ("1000GP_Phase3/genetic_map_chr" ++ chr ++ "_combined_b37.txt").
Proof. vm_compute. reflexivity. Qed.

Lemma format_input_vcf (vcffile : pyval) :
  format " --input-vcf {0}" [vcffile] [] = Ok (" --input-vcf " ++ py_str vcffile).
Proof. rewrite <- (append_nil_r (py_str vcffile)). vm_compute. reflexivity. Qed.

Lemma format_input_map (mapfile : pyval) :
  format " --input-map {0}" [mapfile] [] = Ok (" --input-map " ++ py_str mapfile).
Proof. rewrite <- (append_nil_r (py_str mapfile)). vm_compute. reflexivity. Qed.

Lemma format_thread (cpus : pyval) :
  format " --thread {0} --effective-size 20000" [cpus] [] =
  Ok (" --thread " ++ py_str cpus ++ " --effective-size 20000").
Proof. vm_compute. reflexivity. Qed.

Lemma format_output_max (pf : string) :
  format " --output-max {0}.haps {0}.sample" [PStr pf] [] =
  Ok (" --output-max " ++ pf ++ ".haps " ++ pf ++ ".sample").
Proof. vm_compute. reflexivity. Qed.

Lemma format_input_ref (rpf : string) :
  format " --input-ref {0}.hap.gz {0}.legend.gz" [PStr rpf] [] =
  Ok (" --input-ref " ++ rpf ++ ".hap.gz " ++ rpf ++ ".legend.gz").
Proof. vm_compute. reflexivity. Qed.

Lemma format_sample (pre : string) :
  format " {0}.sample" [PStr pre] [] = Ok (" " ++ pre ++ ".sample").
Proof. vm_compute. reflexivity. Qed.

Lemma format_output_log (pf : string) :
  format " --output-log {0}.log" [PStr pf] [] = Ok (" --output-log " ++ pf ++ ".log").
Proof. vm_compute. reflexivity. Qed.

Lemma get_phasing_cmd_ok (shapeit_cmd vcffile chr : string) (cpus : pyval) :
  get_phasing_cmd shapeit_cmd vcffile chr cpus =
  Ok (phasing_cmd_text shapeit_cmd vcffile chr cpus
        (rsplit_head "_" ("1000GP_Phase3/1000GP_Phase3_chr" ++ chr))).
Proof.
  unfold get_phasing_cmd, phasing_cmd_text.
  rewrite format_rpf. cbn [rbind]. rewrite format_mapfile. cbn [rbind].
  rewrite format_input_vcf. cbn [rbind]. rewrite format_input_map. cbn [rbind].
  rewrite format_thread. cbn [rbind]. rewrite format_output_max. cbn [rbind].
  rewrite format_input_ref. cbn [rbind]. rewrite format_sample. cbn [rbind].
  rewrite format_output_log. cbn [rbind py_str].
  rewrite !append_assoc. reflexivity.
Qed.

Lemma xrange_first (n : Z) :
  (1 <= n <= sys_maxint)%Z -> exists rest, xrange n = Ok (0%Z :: rest).
Proof.
  intros [H1 H2]. unfold xrange.
  destruct (Z.gtb_spec n sys_maxint) as [H|_]; [lia|].
  destruct (Z.to_nat n) as [|k] eqn:E; [lia|].
  exists (map Z.of_nat (seq 1 k)). reflexivity.
Qed.

End ImputeFacts.

(** X20: [get_phasing_cmd] never raises.  For a chromosome name without
    an underscore the sample file of the reference panel is the one file
    [1000GP_Phase3/1000GP_Phase3.sample], whatever the chromosome. *)
Theorem phasing_cmd_reference_sample (shapeit_cmd vcffile chr : string) (cpus : pyval) :
  has_char "_" chr = false ->
  get_phasing_cmd shapeit_cmd vcffile chr cpus =
  Ok (phasing_cmd_text shapeit_cmd vcffile chr cpus "1000GP_Phase3/1000GP_Phase3").
Proof.
  intros Hchr. rewrite get_phasing_cmd_ok. do 2 f_equal.
  change ("1000GP_Phase3/1000GP_Phase3_chr" ++ chr)%string
    with ("1000GP_Phase3/1000GP_Phase3" ++ String "_" ("chr" ++ chr))%string.
  apply rsplit_head_last. exact Hchr.
Qed.

Lemma phasing_cmd_reference_sample_witness :
  get_phasing_cmd "bin/shapeit" "in.vcf" "22" (PInt 8) =
  Ok (phasing_cmd_text "bin/shapeit" "in.vcf" "22" (PInt 8) "1000GP_Phase3/1000GP_Phase3").
Proof.
  apply (phasing_cmd_reference_sample "bin/shapeit" "in.vcf" "22" (PInt 8)). reflexivity.
Defined.

(** With [mapfile] and [rpf] bound, a sequence of 7000000 residues gives
    three chunks: six rules are registered and the makefile is written. *)
Lemma impute_when_names_are_bound :
  let r := impute ["mapfile"; "rpf"]%string (fun name => name) "/opt/shapeit" "/opt/impute"
             (PInt 4) "in.vcf" "hs37d5.fa" "1" 7000000 in
  fst r = Return tt /\
  map (fun ru => snd (fst ru)) (snd r) =
  ["in.haps"; "in.chunk00.impute2"; "in.chunk01.impute2"; "in.chunk02.impute2";
   "in.impute2"; "in.impute2.vcf"]%string.
Proof. vm_compute. split; reflexivity. Qed.

(** X21: [impute] never gets to its chunks.  The loop over the chunks has
    at least one pass, and its first pass reads [mapfile], a name that
    [impute] does not assign, the module does not bind (it is a local of
    [get_phasing_cmd]) and the builtins do not hold: the command ends with
    [NameError] when the rule of the phasing step is the only rule
    registered, and the makefile is not written. *)
Theorem impute_raises_name_error (builtin_names : list string)
  (global_str : string -> string) (shapeit_home impute_home : string) (cpus : pyval)
  (vcffile fastafile chr : string) (size : Z) :
  mem_str "mapfile" builtin_names = false ->
  0 <= size <= sys_maxint ->
  exists cmd,
    get_phasing_cmd (path_join shapeit_home "shapeit") vcffile chr cpus = Ok cmd /\
    impute builtin_names global_str shapeit_home impute_home cpus vcffile fastafile chr size =
    (Throw (NameError "mapfile"),
     [([vcffile], (rsplit_head "." vcffile ++ ".haps")%string, cmd)]).
Proof.
  intros Hname Hsize. eexists. split; [apply get_phasing_cmd_ok|].
  unfold impute. rewrite get_phasing_cmd_ok.
  set (bins := if negb (size mod 5000000 =? 0) then size / 5000000 + 1 else size / 5000000).
  assert (1 <= bins + 1 <= sys_maxint) as Hbins.
  { unfold sys_maxint in *.
    pose proof (Z.div_mod size 5000000 ltac:(lia)) as Hdm.
    pose proof (Z.mod_pos_bound size 5000000 ltac:(lia)) as Hm.
    subst bins. destruct (negb (size mod 5000000 =? 0)); lia. }
  destruct (xrange_first (bins + 1) Hbins) as [rest ->].
  cbn [impute_chunks]. unfold impute_chunk, load_global.
  replace (mem_str "mapfile" module_names) with false by (vm_compute; reflexivity).
  rewrite Hname. reflexivity.
Qed.

Lemma impute_raises_name_error_witness :
  exists cmd,
    get_phasing_cmd (path_join "/opt/shapeit" "shapeit") "in.vcf" "1" (PInt 4) = Ok cmd /\
    impute ["len"; "min"; "xrange"]%string (fun name => name) "/opt/shapeit" "/opt/impute"
      (PInt 4) "in.vcf" "hs37d5.fa" "1" 249250621 =
    (Throw (NameError "mapfile"),
     [(["in.vcf"%string], (rsplit_head "." "in.vcf" ++ ".haps")%string, cmd)]).
Proof.
  apply (impute_raises_name_error ["len"; "min"; "xrange"]%string (fun name => name)
           "/opt/shapeit" "/opt/impute" (PInt 4) "in.vcf" "hs37d5.fa" "1" 249250621).
  - reflexivity.
  - unfold sys_maxint. lia.
Defined.
